(** * High Card: a shallow embedding of [game.py] and [strategies/]

    The Python program is embedded as Rocq functions.  Python integers are
    [Z], Python lists of integers are [list Z], strings are [string].
    Exceptions are values of an error type; the console (standard input and
    output) and the state of the random generator are threaded explicitly
    through a small state-and-error monad. *)

From Stdlib Require Import ZArith NArith List String Ascii Lia Bool.
From Stdlib Require Import DecimalString.
Import ListNotations.

Local Open Scope string_scope.
Local Open Scope list_scope.
Local Open Scope Z_scope.

(** ** The Python built-ins the program calls *)

Module Py.

(** The exception classes that the built-ins used by the program raise. *)
Inductive exn : Type :=
| ValueError
| IndexError
| EOFError
| AttributeError
| KeyError
| NotImplementedError.

(** [type(e).__name__] *)
Definition exn_name (e : exn) : string :=
  match e with
  | ValueError => "ValueError"
  | IndexError => "IndexError"
  | EOFError => "EOFError"
  | AttributeError => "AttributeError"
  | KeyError => "KeyError"
  | NotImplementedError => "NotImplementedError"
  end.

(** The outcome of evaluating an expression: a value or a raised exception. *)
Inductive result (A : Type) : Type :=
| Return (a : A)
| Raise (e : exn).
Arguments Return {A} a.
Arguments Raise {A} e.

Definition rbind {A B} (r : result A) (k : A -> result B) : result B :=
  match r with
  | Return a => k a
  | Raise e => Raise e
  end.

(** [max(l)]: scans left to right, replacing the running maximum by every
    strictly greater item; [ValueError] on an empty list. *)
Fixpoint max_from (m : Z) (l : list Z) : Z :=
  match l with
  | [] => m
  | x :: t => max_from (if x >? m then x else m) t
  end.

Definition max (l : list Z) : result Z :=
  match l with
  | [] => Raise ValueError
  | x :: t => Return (max_from x t)
  end.

(** [min(l)]: the same scan with [<]; [ValueError] on an empty list. *)
Fixpoint min_from (m : Z) (l : list Z) : Z :=
  match l with
  | [] => m
  | x :: t => min_from (if x <? m then x else m) t
  end.

Definition min (l : list Z) : result Z :=
  match l with
  | [] => Raise ValueError
  | x :: t => Return (min_from x t)
  end.

(** [x in l] *)
Fixpoint contains (x : Z) (l : list Z) : bool :=
  match l with
  | [] => false
  | y :: t => if y =? x then true else contains x t
  end.

(** [l.remove(x)]: deletes the first item equal to [x]; [ValueError] when
    there is none. *)
Fixpoint list_remove (x : Z) (l : list Z) : result (list Z) :=
  match l with
  | [] => Raise ValueError
  | y :: t =>
      if y =? x then Return t
      else rbind (list_remove x t) (fun t' => Return (y :: t'))
  end.

(** [list(range(lo, hi))] *)
Definition range (lo hi : Z) : list Z :=
  map (fun i => lo + Z.of_nat i) (seq 0 (Z.to_nat (hi - lo))).

(** [sorted(l)] on integers (the order of equal items is not observable). *)
Fixpoint insert_sorted (x : Z) (l : list Z) : list Z :=
  match l with
  | [] => [x]
  | y :: t => if x <=? y then x :: l else y :: insert_sorted x t
  end.

Definition sorted (l : list Z) : list Z :=
  fold_right insert_sorted [] l.

(** [str(n)] for an integer. *)
Definition str (n : Z) : string :=
  NilZero.string_of_int (Z.to_int n).

(** [s * n] for a string [s]. *)
Fixpoint str_mul (s : string) (n : nat) : string :=
  match n with
  | O => EmptyString
  | S k => (s ++ str_mul s k)%string
  end.

(** [sep.join(l)] *)
Fixpoint join (sep : string) (l : list string) : string :=
  match l with
  | [] => EmptyString
  | [s] => s
  | s :: t => (s ++ sep ++ join sep t)%string
  end.

(** [str(l)] for a list of integers, as an f-string interpolates it. *)
Definition str_list (l : list Z) : string :=
  ("[" ++ join ", " (map str l) ++ "]")%string.

Definition nl : string := String (ascii_of_nat 10) EmptyString.

(** *** [int(s)] on a string

    A string is text in UTF-8, the encoding of the string literals of this
    file and of the console.  [int] reads the text as CPython 3.11 does: the
    white space and the decimal digits of Unicode 14 are first replaced by
    the ASCII space and the ASCII digits, then surrounding white space is
    dropped and an optional sign and decimal digits are read, where single
    underscores may separate digits and at most 4300 digits are allowed.
    [None] stands for [ValueError]. *)

(** The payload of a continuation byte. *)
Definition continuation (c : ascii) : option N :=
  let n := N_of_ascii c in
  if ((128 <=? n) && (n <? 192))%N then Some (n - 128)%N else None.

(** The code points of a string; [None] when it is not well-formed UTF-8
    (a stray or missing continuation byte, an overlong form, a surrogate, a
    value above U+10FFFF). *)
Fixpoint code_points (s : string) : option (list N) :=
  match s with
  | EmptyString => Some []
  | String c0 t0 =>
      let b0 := N_of_ascii c0 in
      if (b0 <? 128)%N then option_map (cons b0) (code_points t0)
      else if ((194 <=? b0) && (b0 <? 224))%N then
        match t0 with
        | String c1 t1 =>
            match continuation c1 with
            | Some x1 =>
                option_map (cons ((b0 - 192) * 64 + x1)%N) (code_points t1)
            | None => None
            end
        | EmptyString => None
        end
      else if ((224 <=? b0) && (b0 <? 240))%N then
        match t0 with
        | String c1 (String c2 t2) =>
            match continuation c1, continuation c2 with
            | Some x1, Some x2 =>
                let cp := ((b0 - 224) * 4096 + x1 * 64 + x2)%N in
                if ((2048 <=? cp) && negb ((55296 <=? cp) && (cp <? 57344)))%N
                then option_map (cons cp) (code_points t2)
                else None
            | _, _ => None
            end
        | _ => None
        end
      else if ((240 <=? b0) && (b0 <? 245))%N then
        match t0 with
        | String c1 (String c2 (String c3 t3)) =>
            match continuation c1, continuation c2, continuation c3 with
            | Some x1, Some x2, Some x3 =>
                let cp :=
                  ((b0 - 240) * 262144 + x1 * 4096 + x2 * 64 + x3)%N in
                if ((65536 <=? cp) && (cp <=? 1114111))%N
                then option_map (cons cp) (code_points t3)
                else None
            | _, _, _ => None
            end
        | _ => None
        end
      else None
  end.

(** The white space of Unicode from U+007F on. *)
Definition unicode_space (c : N) : bool :=
  ((c =? 133) || (c =? 160) || (c =? 5760)
   || ((8192 <=? c) && (c <=? 8202))
   || (c =? 8232) || (c =? 8233) || (c =? 8239) || (c =? 8287)
   || (c =? 12288))%N.

(** The decimal digits of Unicode from U+007F on come in runs of ten, zero
    to nine; these are the zeros. *)
Definition decimal_zeros : list N :=
  [1632; 1776; 1984; 2406; 2534; 2662; 2790; 2918; 3046; 3174; 3302; 3430;
   3558; 3664; 3792; 3872; 4160; 4240; 6112; 6160; 6470; 6608; 6784; 6800;
   6992; 7088; 7232; 7248; 42528; 43216; 43264; 43472; 43504; 43600; 44016;
   65296; 66720; 68912; 69734; 69872; 69942; 70096; 70384; 70736; 70864;
   71248; 71360; 71472; 71904; 72016; 72784; 73040; 73120; 92768; 92864;
   93008; 120782; 120792; 120802; 120812; 120822; 123200; 123632; 125264;
   130032]%N.

Definition unicode_decimal (c : N) : option N :=
  match find (fun z => ((z <=? c) && (c <? z + 10))%N) decimal_zeros with
  | Some z => Some (c - z)%N
  | None => None
  end.

(** The ASCII text that is parsed: code points below U+007F as they are,
    white space as a space, decimal digits as ASCII digits; [None] when
    there is another character. *)
Fixpoint to_ascii (l : list N) : option string :=
  match l with
  | [] => Some EmptyString
  | c :: t =>
      if (c <? 127)%N then option_map (String (ascii_of_N c)) (to_ascii t)
      else if unicode_space c then option_map (String " "%char) (to_ascii t)
      else
        match unicode_decimal c with
        | Some d => option_map (String (ascii_of_N (48 + d))) (to_ascii t)
        | None => None
        end
  end.

(** The ASCII white space: tab, line feed, vertical tab, form feed,
    carriage return and space. *)
Definition is_space (c : ascii) : bool :=
  let n := nat_of_ascii c in
  ((9 <=? n) && (n <=? 13) || (n =? 32))%nat.

Definition digit_val (c : ascii) : option Z :=
  let n := Z.of_nat (nat_of_ascii c) in
  if (48 <=? n) && (n <=? 57) then Some (n - 48) else None.

Fixpoint all_space (s : string) : bool :=
  match s with
  | EmptyString => true
  | String c t => is_space c && all_space t
  end.

Fixpoint lstrip (s : string) : string :=
  match s with
  | EmptyString => s
  | String c t => if is_space c then lstrip t else s
  end.

(** [sys.int_info.default_max_str_digits] *)
Definition max_str_digits : N := 4300%N.

(** [digits] counts the digits read so far; [after_digit] tells whether the
    character before [s] was a digit, the only place where an underscore,
    trailing white space or the end may follow. *)
Fixpoint parse_digits (acc : Z) (digits : N) (after_digit : bool)
  (s : string) : option Z :=
  match s with
  | EmptyString =>
      if after_digit && (digits <=? max_str_digits)%N then Some acc else None
  | String c t =>
      match digit_val c with
      | Some d => parse_digits (10 * acc + d) (digits + 1)%N true t
      | None =>
          if negb after_digit then None
          else if Ascii.eqb c "_" then parse_digits acc digits false t
          else if all_space s && (digits <=? max_str_digits)%N then Some acc
          else None
      end
  end.

(** [int] on ASCII text. *)
Definition int_ascii (s : string) : option Z :=
  match lstrip s with
  | String "-" t => option_map Z.opp (parse_digits 0 0%N false t)
  | String "+" t => parse_digits 0 0%N false t
  | t => parse_digits 0 0%N false t
  end.

Definition int (s : string) : option Z :=
  match code_points s with
  | Some l =>
      match to_ascii l with
      | Some a => int_ascii a
      | None => None
      end
  | None => None
  end.

(** *** The console and the random generator

    [stdin] holds the lines still to be read, [stdout] the chunks of text
    written so far, oldest first.  The generator is an arbitrary sequence of
    draws [rng] and a cursor into it: [random.choice] indexes the sequence it
    is given with the next draw, reduced below its length, so every choice of
    indices is the behaviour of some [rng]. *)
Record World : Type := mkWorld {
  stdin : list string;
  stdout : list string;
  rng : nat -> nat;
  rng_pos : nat
}.

Definition set_stdin (l : list string) (w : World) : World :=
  mkWorld l (stdout w) (rng w) (rng_pos w).

Definition write (s : string) (w : World) : World :=
  mkWorld (stdin w) (stdout w ++ [s]) (rng w) (rng_pos w).

Definition next_draw (w : World) : World :=
  mkWorld (stdin w) (stdout w) (rng w) (S (rng_pos w)).

(** Computations that read and write the world and may raise. *)
Definition M (A : Type) : Type := World -> result A * World.

Definition ret {A} (a : A) : M A := fun w => (Return a, w).

Definition raise {A} (e : exn) : M A := fun w => (Raise e, w).

Definition bind {A B} (m : M A) (k : A -> M B) : M B :=
  fun w =>
    match m w with
    | (Return a, w') => k a w'
    | (Raise e, w') => (Raise e, w')
    end.

Definition lift {A} (r : result A) : M A := fun w => (r, w).

(** [print(s)] *)
Definition print (s : string) : M unit :=
  fun w => (Return tt, write (s ++ nl)%string w).

(** [input(prompt)]: writes the prompt and reads one line; [EOFError] at the
    end of the input. *)
Definition input (prompt : string) : M string :=
  fun w =>
    match stdin w with
    | [] => (Raise EOFError, write prompt w)
    | line :: rest => (Return line, set_stdin rest (write prompt w))
    end.

(** [random.choice(l)]: [IndexError] on an empty list. *)
Definition random_choice (l : list Z) : M Z :=
  fun w =>
    match l with
    | [] => (Raise IndexError, w)
    | x :: _ =>
        (Return (nth (Nat.modulo (rng w (rng_pos w)) (List.length l)) l x),
         next_draw w)
    end.

(** [for x in xs: s = body(x, s)], where [s] stands for the objects the body
    mutates. *)
Fixpoint for_ {X S : Type} (xs : list X) (body : X -> S -> M S) (s : S) : M S :=
  match xs with
  | [] => ret s
  | x :: t => bind (body x s) (for_ t body)
  end.

End Py.

Declare Scope py_scope.
Delimit Scope py_scope with py.
Notation "x <- m ;; k" := (Py.bind m (fun x => k))
  (at level 61, m at next level, right associativity) : py_scope.
Notation "' p <- m ;; k" := (Py.bind m (fun p => k))
  (at level 61, p pattern, m at next level, right associativity) : py_scope.
Notation "m ;; k" := (Py.bind m (fun _ => k))
  (at level 61, right associativity) : py_scope.
Local Open Scope py_scope.

Import Py.

(** ** class Player *)

Module Player.

Record t : Type := mk {
  name : string;
  score : Z;
  numbers : list Z
}.

(** [Player(name)] *)
Definition new (name : string) : t :=
  mk name 0 (Py.range 1 14).

Definition set_score (self : t) (v : Z) : t :=
  mk (name self) v (numbers self).

Definition set_numbers (self : t) (l : list Z) : t :=
  mk (name self) (score self) l.

(** [remove_number] returns its boolean together with the player after the
    call. *)
Definition remove_number (self : t) (number : Z) : result (bool * t) :=
  if Py.contains number (numbers self) then
    rbind (Py.list_remove number (numbers self))
      (fun l => Return (true, set_numbers self l))
  else Return (false, self).

Definition __str__ (self : t) : string := name self.

End Player.

(** ** class Strategy and its four subclasses

    [game.py] and [strategies/sample_strategies.py] define the same four
    classes with the same bodies; one embedding serves both. *)

Module Strategy.

Record t : Type := mk {
  name : string;
  play : list Z -> list Z -> M Z
}.

(** The base class of [game.py]: [play] raises [NotImplementedError]. *)
Definition new (name : string) : t :=
  mk name (fun _ _ => raise NotImplementedError).

End Strategy.

Module RandomStrategy.
Definition play (player_numbers opponent_numbers : list Z) : M Z :=
  Py.random_choice player_numbers.
Definition new : Strategy.t := Strategy.mk "Random" play.
End RandomStrategy.

Module HighCardStrategy.
Definition play (player_numbers opponent_numbers : list Z) : M Z :=
  lift (Py.max player_numbers).
Definition new : Strategy.t := Strategy.mk "High Card" play.
End HighCardStrategy.

Module LowCardStrategy.
Definition play (player_numbers opponent_numbers : list Z) : M Z :=
  lift (Py.min player_numbers).
Definition new : Strategy.t := Strategy.mk "Low Card" play.
End LowCardStrategy.

Module StrategicPlay.
Definition play (player_numbers opponent_numbers : list Z) : M Z :=
  match opponent_numbers with
  | [] => lift (Py.max player_numbers)
  | _ :: _ =>
      opponent_highest <- lift (Py.max opponent_numbers) ;;
      let winning_cards :=
        filter (fun card => card >? opponent_highest) player_numbers in
      match winning_cards with
      | _ :: _ => lift (Py.min winning_cards)
      | [] => lift (Py.min player_numbers)
      end
  end.
Definition new : Strategy.t := Strategy.mk "Strategic Play" play.
End StrategicPlay.

(** ** class Game *)

Module Game.

Record t : Type := mk {
  player : Player.t;
  computer : Player.t;
  total_turns : Z;
  current_turn : Z;
  computer_strategy : option Strategy.t;
  strategies : list (string * Strategy.t)
}.

(** [Game()] *)
Definition new : t :=
  mk (Player.new "You") (Player.new "Computer") 13 1 None
    [("1", RandomStrategy.new); ("2", HighCardStrategy.new);
     ("3", LowCardStrategy.new); ("4", StrategicPlay.new)].

Definition set_players (self : t) (p c : Player.t) : t :=
  mk p c (total_turns self) (current_turn self) (computer_strategy self)
    (strategies self).

Definition set_current_turn (self : t) (v : Z) : t :=
  mk (player self) (computer self) (total_turns self) v
    (computer_strategy self) (strategies self).

Definition set_computer_strategy (self : t) (s : Strategy.t) : t :=
  mk (player self) (computer self) (total_turns self) (current_turn self)
    (Some s) (strategies self).

(** [d[key]] on the dictionary of strategies, [None] when [key not in d]. *)
Fixpoint lookup (key : string) (d : list (string * Strategy.t))
  : option Strategy.t :=
  match d with
  | [] => None
  | (k, v) :: rest => if String.eqb k key then Some v else lookup key rest
  end.

(** The menu both selection functions print. *)
Definition print_menu (self : t) : M unit :=
  for_ (strategies self)
    (fun '(key, strategy_obj) _ =>
       print ("  (" ++ key ++ ") " ++ Strategy.name strategy_obj))
    tt.

(** The [while True] loops read one line per iteration: they are written by
    recursion on the lines left on standard input, which the loop puts back in
    the world it returns. *)
Fixpoint _select_strategy_loop (self : t) (lines : list string) (w : World)
  : result t * World :=
  let w := write "Enter your choice (1, 2, 3, or 4): " w in
  match lines with
  | [] => (Raise EOFError, set_stdin [] w)
  | choice :: rest =>
      let w := set_stdin rest w in
      match lookup choice (strategies self) with
      | Some s =>
          (print ("You have selected the " ++ Strategy.name s ++ " strategy.") ;;
           ret (set_computer_strategy self s)) w
      | None =>
          match print "Invalid choice. Please enter a number from the list." w with
          | (_, w) => _select_strategy_loop self rest w
          end
      end
  end.

Definition _select_strategy (self : t) : M t :=
  print "Choose a strategy for the computer opponent:" ;;
  print_menu self ;;
  fun w => _select_strategy_loop self (stdin w) w.

Fixpoint _select_choice_loop (self : t) (prompt : string)
  (lines : list string) (w : World) : result string * World :=
  let w := write prompt w in
  match lines with
  | [] => (Raise EOFError, set_stdin [] w)
  | choice :: rest =>
      let w := set_stdin rest w in
      match lookup choice (strategies self) with
      | Some _ => (Return choice, w)
      | None =>
          match print "Invalid choice. Please enter a valid number." w with
          | (_, w) => _select_choice_loop self prompt rest w
          end
      end
  end.

Definition _select_simulation_strategies (self : t)
  : M (Strategy.t * Strategy.t) :=
  print "Choose two strategies to face off:" ;;
  print_menu self ;;
  choice1 <- (fun w => _select_choice_loop self "Enter choice for Player 1: "
                         (stdin w) w) ;;
  choice2 <- (fun w => _select_choice_loop self "Enter choice for Player 2: "
                         (stdin w) w) ;;
  match lookup choice1 (strategies self), lookup choice2 (strategies self) with
  | Some strategy1, Some strategy2 =>
      print (nl ++ "Simulating a game between " ++ Strategy.name strategy1
             ++ " and " ++ Strategy.name strategy2 ++ "...") ;;
      ret (strategy1, strategy2)
  | _, _ => raise KeyError
  end.

Definition _display_status (self : t) (current_turn : Z)
  (player1 player2 : Player.t) : M unit :=
  print (nl ++ "--- Turn " ++ Py.str current_turn ++ "/"
         ++ Py.str (total_turns self) ++ " ---") ;;
  print (Player.name player1 ++ "'s Score: " ++ Py.str (Player.score player1)) ;;
  print (Player.name player2 ++ "'s Score: " ++ Py.str (Player.score player2)) ;;
  print (Py.str_mul "-" 25).

(** [_get_player_choice] returns the choice and the game after the call: the
    accepted number is already removed from the human player's list. *)
Fixpoint _get_player_choice_loop (self : t) (lines : list string) (w : World)
  : result (Z * t) * World :=
  let w := write ("Your available numbers are: "
                  ++ Py.str_list (Py.sorted (Player.numbers (player self)))
                  ++ nl) w in
  let w := write "Choose a number to play: " w in
  match lines with
  | [] => (Raise EOFError, set_stdin [] w)
  | line :: rest =>
      let w := set_stdin rest w in
      match Py.int line with
      | None =>
          match print "Invalid input. Please enter a valid number." w with
          | (_, w) => _get_player_choice_loop self rest w
          end
      | Some choice =>
          match Player.remove_number (player self) choice with
          | Raise e => (Raise e, w)
          | Return (true, p) =>
              (Return (choice, set_players self p (computer self)), w)
          | Return (false, _) =>
              match print "Invalid number. Please choose a number from your list." w with
              | (_, w) => _get_player_choice_loop self rest w
              end
          end
      end
  end.

Definition _get_player_choice (self : t) : M (Z * t) :=
  fun w => _get_player_choice_loop self (stdin w) w.

(** [_update_game_state] returns the two players after the call. *)
Definition _update_game_state (self : t) (player1_choice player2_choice : Z)
  (player1 player2 : Player.t) : M (Player.t * Player.t) :=
  print (Player.name player1 ++ " played: " ++ Py.str player1_choice) ;;
  print (Player.name player2 ++ " played: " ++ Py.str player2_choice) ;;
  '(player1, player2) <-
    (if player1_choice >? player2_choice then
       let player1 := Player.set_score player1 (Player.score player1 + 1) in
       print (Player.name player1 ++ " wins this turn!") ;;
       ret (player1, player2)
     else if player2_choice >? player1_choice then
       let player2 := Player.set_score player2 (Player.score player2 + 1) in
       print (Player.name player2 ++ " wins this turn!") ;;
       ret (player1, player2)
     else
       print "It's a tie! No one gets a point." ;;
       ret (player1, player2)) ;;
  '(_, player1) <- lift (Player.remove_number player1 player1_choice) ;;
  '(_, player2) <- lift (Player.remove_number player2 player2_choice) ;;
  ret (player1, player2).

Definition _end_game (self : t) (player1 player2 : Player.t) : M unit :=
  print (nl ++ Py.str_mul "=" 25) ;;
  print "           GAME OVER           " ;;
  print (Py.str_mul "=" 25) ;;
  print (nl ++ "Final Scores:") ;;
  print (Player.name player1 ++ " Score: " ++ Py.str (Player.score player1)) ;;
  print (Player.name player2 ++ " Score: " ++ Py.str (Player.score player2)) ;;
  if Player.score player1 >? Player.score player2 then
    print (nl ++ Player.name player1 ++ " wins the game!")
  else if Player.score player2 >? Player.score player1 then
    print (nl ++ Player.name player2 ++ " wins the game!")
  else
    print (nl ++ "It's a tie game!").

(** [self.computer_strategy.play(...)]: an attribute of [None] does not
    exist. *)
Definition computer_play (self : t) (own opponent : list Z) : M Z :=
  match computer_strategy self with
  | Some s => Strategy.play s own opponent
  | None => raise AttributeError
  end.

(** One iteration of the loop of [play]. *)
Definition play_turn (_ : Z) (self : t) : M t :=
  _display_status self (current_turn self) (player self) (computer self) ;;
  '(player_choice, self) <- _get_player_choice self ;;
  computer_choice <-
    computer_play self (Player.numbers (computer self))
      (Player.numbers (player self)) ;;
  '(p, c) <- _update_game_state self player_choice computer_choice
               (player self) (computer self) ;;
  let self := set_players self p c in
  ret (set_current_turn self (current_turn self + 1)).

(** The loop of [play] over the turns [turns]. *)
Definition play_turns (turns : list Z) (self : t) : M t :=
  for_ turns play_turn self.

(** [play] returns the game after the call. *)
Definition play (self : t) : M t :=
  print "Welcome to High Card Game!" ;;
  print "Play against the computer. The higher number wins the turn. Most wins after 13 turns takes the game!" ;;
  self <- _select_strategy self ;;
  self <- play_turns (Py.range 0 (total_turns self)) self ;;
  _end_game self (player self) (computer self) ;;
  ret self.

(** One iteration of the loop of [simulate_game]. *)
Definition simulate_turn (self : t) (strategy1 strategy2 : Strategy.t)
  (turn : Z) (players : Player.t * Player.t) : M (Player.t * Player.t) :=
  let '(player1, player2) := players in
  _display_status self turn player1 player2 ;;
  player1_choice <-
    Strategy.play strategy1 (Player.numbers player1) (Player.numbers player2) ;;
  player2_choice <-
    Strategy.play strategy2 (Player.numbers player2) (Player.numbers player1) ;;
  _update_game_state self player1_choice player2_choice player1 player2.

(** The loop of [simulate_game] over the turns [turns]. *)
Definition simulate_turns (self : t) (strategy1 strategy2 : Strategy.t)
  (turns : list Z) (players : Player.t * Player.t)
  : M (Player.t * Player.t) :=
  for_ turns (simulate_turn self strategy1 strategy2) players.

(** [simulate_game] returns the two players it created, as they are when
    the function ends. *)
Definition simulate_game (self : t) : M (Player.t * Player.t) :=
  '(strategy1, strategy2) <- _select_simulation_strategies self ;;
  let player1 := Player.new (Strategy.name strategy1) in
  let player2 := Player.new (Strategy.name strategy2) in
  '(player1, player2) <-
    simulate_turns self strategy1 strategy2
      (Py.range 1 (total_turns self + 1)) (player1, player2) ;;
  _end_game self player1 player2 ;;
  ret (player1, player2).

End Game.

(** ** The program: the block under [if __name__ == "__main__"] *)

Module Main.

(** The menu loop, by recursion on the lines left on standard input as the
    loops of [Game]; [game] is the one [Game()] the block creates. *)
Fixpoint menu_loop (game : Game.t) (lines : list string) (w : World)
  : result unit * World :=
  let w := write (nl ++ "What would you like to do?" ++ nl) w in
  let w := write ("  (1) Play a game against a computer opponent" ++ nl) w in
  let w := write ("  (2) Simulate a game between two strategies" ++ nl) w in
  let w := write "Enter your choice (1 or 2): " w in
  match lines with
  | [] => (Raise EOFError, set_stdin [] w)
  | choice :: rest =>
      let w := set_stdin rest w in
      if String.eqb choice "1" then
        (Game.play game ;; ret tt) w
      else if String.eqb choice "2" then
        (Game.simulate_game game ;; ret tt) w
      else
        match print "Invalid choice. Please enter 1 or 2." w with
        | (_, w) => menu_loop game rest w
        end
  end.

Definition main : M unit :=
  fun w => menu_loop Game.new (stdin w) w.

End Main.

(** ** What the specification means by its words

    The specification speaks of the maximum and the minimum of a set of
    numbers; these predicates say it without reference to the code. *)

Definition is_maximum (s : list Z) (m : Z) : Prop :=
  In m s /\ forall x, In x s -> x <= m.

Definition is_minimum (s : list Z) (m : Z) : Prop :=
  In m s /\ forall x, In x s -> m <= x.

(** The candidates of Beat-Opponent-Max: the numbers of [own] strictly
    greater than the opponent's highest. *)
Definition candidate (own : list Z) (opponent_highest : Z) (x : Z) : Prop :=
  In x own /\ opponent_highest < x.

(** The strategies a game offers. *)
Definition concrete_strategies : list Strategy.t :=
  map snd (Game.strategies Game.new).

(** A world to run examples in. *)
Definition quiet_world : World := mkWorld [] [] (fun _ => O) O.

(** ** Predicates on the states of a match *)

(** The score each side has after the comparison of the two numbers. *)
Definition score_after (mine theirs : Z) (score : Z) : Z :=
  if mine >? theirs then score + 1 else score.

(** The states of the game that [play] goes through: the new game, with the
    strategy the user selected, after any number of turns of the loop. *)
Definition in_play (self : Game.t) : Prop :=
  exists s turns w w',
    Game.play_turns turns (Game.set_computer_strategy Game.new s) w
      = (Return self, w').

(** What is left of a turn of [play] once the human's number is accepted:
    the call of the computer's strategy, the resolution of the turn and the
    step of the counter, on the game [self1] that the input loop returned. *)
Definition after_choice (s : Strategy.t) (player_choice : Z) (self1 : Game.t)
  : M Game.t :=
  computer_choice <-
    Strategy.play s (Player.numbers (Game.computer self1))
      (Player.numbers (Game.player self1)) ;;
  '(p, c) <- Game._update_game_state self1 player_choice computer_choice
               (Game.player self1) (Game.computer self1) ;;
  ret (Game.set_current_turn (Game.set_players self1 p c)
         (Game.current_turn self1 + 1)).

(** The world in which the input loop of a turn starts. *)
Definition world_at_prompt (self : Game.t) (w : World) : World :=
  snd (Game._display_status self (Game.current_turn self) (Game.player self)
         (Game.computer self) w).


(** Both lists hold [m] numbers. *)
Definition hands_hold (m : nat) (ps : Player.t * Player.t) : Prop :=
  List.length (Player.numbers (fst ps)) = m /\
  List.length (Player.numbers (snd ps)) = m.

(** The state of [play] with [m] turns to go. *)
Definition play_state (m : nat) (self : Game.t) : Prop :=
  List.length (Player.numbers (Game.player self)) = m /\
  List.length (Player.numbers (Game.computer self)) = m /\
  NoDup (Player.numbers (Game.player self)) /\
  (exists s, Game.computer_strategy self = Some s
             /\ In s concrete_strategies) /\
  Game.current_turn self = 14 - Z.of_nat m.

(** The two players at the start of that simulation. *)
Definition high_low_start : Player.t * Player.t :=
  (Player.new (Strategy.name HighCardStrategy.new),
   Player.new (Strategy.name LowCardStrategy.new)).

(** ** Predicates for the properties beyond the specification *)

(** A line of ASCII characters only. *)
Fixpoint ascii_text (line : string) : bool :=
  match line with
  | EmptyString => true
  | String c t => (N_of_ascii c <? 128)%N && ascii_text t
  end.

(** A line the input loop of [_get_player_choice] accepts for the hand
    [hand]: it reads as an integer that is in the hand. *)
Definition valid_choice (hand : list Z) (line : string) : bool :=
  match Py.int line with
  | Some c => Py.contains c hand
  | None => false
  end.

(** A line that is a key of the dictionary of strategies. *)
Definition valid_key (self : Game.t) (line : string) : bool :=
  match Game.lookup line (Game.strategies self) with
  | Some _ => true
  | None => false
  end.

(** The list after [remove_number]: the first occurrence of [x] is gone,
    if there is one. *)
Fixpoint drop_first (x : Z) (l : list Z) : list Z :=
  match l with
  | [] => []
  | y :: t => if y =? x then t else y :: drop_first x t
  end.

(** A player later in a match: same name, a score that has not gone down,
    and no number that was not there before. *)
Definition evolves (old new : Player.t) : Prop :=
  Player.name new = Player.name old /\
  Player.score old <= Player.score new /\
  forall x, (count_occ Z.eq_dec (Player.numbers new) x
             <= count_occ Z.eq_dec (Player.numbers old) x)%nat.

(** Two players [n] turns later: together they have won at most [n]
    points more. *)
Definition progress (n : nat) (old new : Player.t * Player.t) : Prop :=
  evolves (fst old) (fst new) /\
  evolves (snd old) (snd new) /\
  Player.score (fst new) + Player.score (snd new)
    <= Player.score (fst old) + Player.score (snd old) + Z.of_nat n.

(** The strategies that draw no random number. *)
Definition deterministic_strategy (s : Strategy.t) : Prop :=
  s = HighCardStrategy.new \/ s = LowCardStrategy.new \/
  s = StrategicPlay.new.

(** What a run may do to the world when it reads no input: the sequence of
    draws is the same and at most [n] more of them are used. *)
Definition reads_nothing (n : nat) (w w' : World) : Prop :=
  stdin w' = stdin w /\ rng w' = rng w /\
  (rng_pos w <= rng_pos w' <= rng_pos w + n)%nat.

(** A strategy that reads no input and uses at most [n] draws in a call,
    whatever the call returns or raises. *)
Definition draws_at_most (n : nat) (s : Strategy.t) : Prop :=
  forall own opponent w,
    reads_nothing n w (snd (Strategy.play s own opponent w)).

(** A run that has read at least [n] lines: the input it leaves is what
    was there less the lines [used]. *)
Definition reads_lines (n : nat) (w w' : World) : Prop :=
  exists used, stdin w = used ++ stdin w' /\ (n <= List.length used)%nat.

(** Both lists are the same, hold [m] numbers, and the scores are [a] and
    [b]. *)
Definition mirrored (a b : Z) (m : nat) (ps : Player.t * Player.t) : Prop :=
  Player.numbers (fst ps) = Player.numbers (snd ps) /\
  List.length (Player.numbers (fst ps)) = m /\
  Player.score (fst ps) = a /\ Player.score (snd ps) = b.

(** The two players of a game, as a pair. *)
Definition players_of (self : Game.t) : Player.t * Player.t :=
  (Game.player self, Game.computer self).

(** ** The built-ins *)

Section Builtins.

(** The equations of sequencing. *)
Lemma bind_print {B} (s : string) (k : unit -> M B) w :
  Py.bind (print s) k w = k tt (write (s ++ nl) w).
Proof.
  reflexivity.
Qed.

Lemma bind_return {A B} (m : M A) (k : A -> M B) w a w' :
  m w = (Return a, w') -> Py.bind m k w = k a w'.
Proof.
  intros H. unfold bind. now rewrite H.
Qed.

Lemma bind_raise {A B} (m : M A) (k : A -> M B) w e w' :
  m w = (Raise e, w') -> Py.bind m k w = (Raise e, w').
Proof.
  intros H. unfold bind. now rewrite H.
Qed.

Lemma is_maximum_unique s m m' :
  is_maximum s m -> is_maximum s m' -> m = m'.
Proof.
  intros [Hin Hle] [Hin' Hle'].
  apply Hle' in Hin. apply Hle in Hin'. lia.
Qed.

Lemma is_minimum_unique s m m' :
  is_minimum s m -> is_minimum s m' -> m = m'.
Proof.
  intros [Hin Hle] [Hin' Hle'].
  apply Hle' in Hin. apply Hle in Hin'. lia.
Qed.

Lemma max_from_bounds l : forall m,
  m <= Py.max_from m l /\
  (forall x, In x l -> x <= Py.max_from m l) /\
  (Py.max_from m l = m \/ In (Py.max_from m l) l).
Proof.
  induction l as [|y t IH]; intro m; simpl.
  - repeat split; [lia | tauto | now left].
  - destruct (Z.gtb_spec y m) as [Hgt | Hle];
      [destruct (IH y) as (H1 & H2 & H3) | destruct (IH m) as (H1 & H2 & H3)];
      (split; [lia | split;
        [intros x [-> | Hx]; [lia | now apply H2]
        | destruct H3 as [-> | H3]; auto]]).
Qed.

Lemma min_from_bounds l : forall m,
  Py.min_from m l <= m /\
  (forall x, In x l -> Py.min_from m l <= x) /\
  (Py.min_from m l = m \/ In (Py.min_from m l) l).
Proof.
  induction l as [|y t IH]; intro m; simpl.
  - repeat split; [lia | tauto | now left].
  - destruct (Z.ltb_spec y m) as [Hlt | Hge];
      [destruct (IH y) as (H1 & H2 & H3) | destruct (IH m) as (H1 & H2 & H3)];
      (split; [lia | split;
        [intros x [-> | Hx]; [lia | now apply H2]
        | destruct H3 as [-> | H3]; auto]]).
Qed.

Lemma max_is_maximum l :
  l <> [] -> exists m, Py.max l = Return m /\ is_maximum l m.
Proof.
  destruct l as [|x t]; [congruence | intros _].
  exists (Py.max_from x t). split; [reflexivity |].
  destruct (max_from_bounds t x) as (H1 & H2 & H3).
  split.
  - destruct H3 as [-> | H3]; simpl; auto.
  - intros y [<- | Hy]; auto.
Qed.

Lemma min_is_minimum l :
  l <> [] -> exists m, Py.min l = Return m /\ is_minimum l m.
Proof.
  destruct l as [|x t]; [congruence | intros _].
  exists (Py.min_from x t). split; [reflexivity |].
  destruct (min_from_bounds t x) as (H1 & H2 & H3).
  split.
  - destruct H3 as [-> | H3]; simpl; auto.
  - intros y [<- | Hy]; auto.
Qed.

Lemma contains_In x l : Py.contains x l = true <-> In x l.
Proof.
  induction l as [|y t IH]; simpl.
  - split; [discriminate | tauto].
  - destruct (Z.eqb_spec y x) as [-> | Hne].
    + split; auto.
    + rewrite IH. split; [auto | intros [H | H]; [congruence | exact H]].
Qed.

Lemma contains_not_In x l : Py.contains x l = false <-> ~ In x l.
Proof.
  rewrite <- contains_In. destruct (Py.contains x l); split; congruence.
Qed.

(** [l.remove(x)] on a list that holds [x] deletes its first occurrence. *)
Lemma list_remove_In x l :
  In x l ->
  exists l1 l2,
    l = l1 ++ x :: l2 /\ ~ In x l1 /\ Py.list_remove x l = Return (l1 ++ l2).
Proof.
  induction l as [|y t IH]; simpl; [tauto |].
  intros Hin. destruct (Z.eqb_spec y x) as [-> | Hne].
  - exists [], t. simpl. auto.
  - destruct Hin as [Heq | Hin]; [congruence |].
    destruct (IH Hin) as (l1 & l2 & -> & Hnot & ->).
    exists (y :: l1), l2. simpl. repeat split; auto.
    intros [H | H]; [congruence | auto].
Qed.

Lemma nonempty_length (l : list Z) m : List.length l = S m -> l <> [].
Proof.
  destruct l; [discriminate | discriminate].
Qed.

Lemma filter_none_nil (f : Z -> bool) l :
  filter f l = [] -> forall x, In x l -> f x = false.
Proof.
  intros Hnil x Hx. destruct (f x) eqn:E; [| reflexivity].
  assert (In x (filter f l)) as H by (apply filter_In; auto).
  rewrite Hnil in H. destruct H.
Qed.

End Builtins.

(** ** The strategies *)

Section Strategies.

Lemma HighCard_play_maximum own opponent w :
  own <> [] ->
  exists m, HighCardStrategy.play own opponent w = (Return m, w)
            /\ is_maximum own m.
Proof.
  intros Hne. destruct (max_is_maximum own Hne) as (m & Hm & Hmax).
  exists m. unfold HighCardStrategy.play, lift. now rewrite Hm.
Qed.

Lemma LowCard_play_minimum own opponent w :
  own <> [] ->
  exists m, LowCardStrategy.play own opponent w = (Return m, w)
            /\ is_minimum own m.
Proof.
  intros Hne. destruct (min_is_minimum own Hne) as (m & Hm & Hmin).
  exists m. unfold LowCardStrategy.play, lift. now rewrite Hm.
Qed.

Lemma Random_play_member own opponent w :
  own <> [] ->
  exists r, RandomStrategy.play own opponent w = (Return r, next_draw w)
            /\ In r own.
Proof.
  destruct own as [|x t]; [congruence | intros _].
  eexists. split; [reflexivity |].
  apply nth_In. apply Nat.mod_upper_bound. discriminate.
Qed.

(** Beat-Opponent-Max, case by case. *)
Lemma StrategicPlay_play_cases own opponent w :
  own <> [] ->
  exists r,
    StrategicPlay.play own opponent w = (Return r, w) /\
    (opponent = [] -> is_maximum own r) /\
    (opponent <> [] ->
     exists opponent_highest,
       is_maximum opponent opponent_highest /\
       ((exists x, candidate own opponent_highest x) ->
        candidate own opponent_highest r /\
        forall x, candidate own opponent_highest x -> r <= x) /\
       (~ (exists x, candidate own opponent_highest x) ->
        is_minimum own r)).
Proof.
  intros Hne. destruct opponent as [|o ot].
  - destruct (max_is_maximum own Hne) as (m & Hm & Hmax).
    exists m. unfold StrategicPlay.play, lift. rewrite Hm.
    repeat split; try apply Hmax; congruence.
  - assert (o :: ot <> []) as Hopp by discriminate.
    destruct (max_is_maximum _ Hopp) as (h & Hh & Hhmax).
    unfold StrategicPlay.play, bind, lift. rewrite Hh.
    destruct (filter (fun card => card >? h) own) as [|c ct] eqn:Hf.
    + destruct (min_is_minimum own Hne) as (m & Hm & Hmin).
      exists m. rewrite Hm. split; [reflexivity |].
      split; [discriminate | intros _].
      exists h. split; [exact Hhmax |]. split; [| auto].
      intros (x & Hx & Hgt). exfalso.
      pose proof (filter_none_nil _ _ Hf x Hx) as Hfalse. simpl in Hfalse.
      lia.
    + assert (c :: ct <> []) as Hc by discriminate.
      destruct (min_is_minimum _ Hc) as (m & Hm & Hmin).
      exists m. rewrite Hm. split; [reflexivity |].
      split; [discriminate | intros _].
      exists h. split; [exact Hhmax |].
      rewrite <- Hf in Hmin. destruct Hmin as [Hin Hle].
      apply filter_In in Hin. destruct Hin as [Hin Hgt].
      split.
      * intros _. split; [split; [exact Hin | lia] |].
        intros x [Hx Hxgt]. apply Hle. apply filter_In. split; [exact Hx | lia].
      * intros Hnone. exfalso. apply Hnone. exists m. split; [exact Hin | lia].
Qed.

(** C1: Beat-Opponent-Max on a non-empty [own]: the maximum of [own] when
    the opponent has nothing left; otherwise the least number of [own]
    strictly above the opponent's maximum when there is one, and the minimum
    of [own] when there is none.  The world is left as it was.  In
    particular the three examples of the specification give 7, 1 and 8. *)
Theorem C1_StrategicPlay_play own opponent w :
  own <> [] ->
  (exists r,
     StrategicPlay.play own opponent w = (Return r, w) /\
     (opponent = [] -> is_maximum own r) /\
     (opponent <> [] ->
      exists opponent_highest,
        is_maximum opponent opponent_highest /\
        ((exists x, candidate own opponent_highest x) ->
         candidate own opponent_highest r /\
         forall x, candidate own opponent_highest x -> r <= x) /\
        (~ (exists x, candidate own opponent_highest x) ->
         is_minimum own r))) /\
  StrategicPlay.play [3; 7; 9] [5; 6] w = (Return 7, w) /\
  StrategicPlay.play [1; 2; 3] [9; 10] w = (Return 1, w) /\
  StrategicPlay.play [4; 8] [] w = (Return 8, w).
Proof.
  intros Hne. split; [now apply StrategicPlay_play_cases |].
  repeat split.
Qed.

Lemma C1_StrategicPlay_play_witness :
  exists r,
    StrategicPlay.play [2; 11; 5; 8] [7; 4] quiet_world
      = (Return r, quiet_world) /\ r = 8.
Proof.
  destruct (C1_StrategicPlay_play [2; 11; 5; 8] [7; 4] quiet_world
              ltac:(discriminate)) as [(r & Hr & _) _].
  exists r. split; [exact Hr |].
  vm_compute in Hr. congruence.
Defined.

Lemma concrete_strategies_cases s :
  In s concrete_strategies ->
  s = RandomStrategy.new \/ s = HighCardStrategy.new \/
  s = LowCardStrategy.new \/ s = StrategicPlay.new.
Proof.
  simpl. intuition.
Qed.

(** A concrete strategy returns a number of a non-empty [own]; it reads no
    input and writes nothing. *)
Lemma concrete_play_member s own opponent w :
  In s concrete_strategies ->
  own <> [] ->
  exists r w',
    Strategy.play s own opponent w = (Return r, w') /\ In r own /\
    stdin w' = stdin w /\ stdout w' = stdout w.
Proof.
  intros Hs Hne.
  destruct (concrete_strategies_cases s Hs) as [-> | [-> | [-> | ->]]]; simpl.
  - destruct (Random_play_member own opponent w Hne) as (r & Hr & Hin).
    now exists r, (next_draw w).
  - destruct (HighCard_play_maximum own opponent w Hne) as (r & Hr & Hin & _).
    now exists r, w.
  - destruct (LowCard_play_minimum own opponent w Hne) as (r & Hr & Hin & _).
    now exists r, w.
  - destruct (StrategicPlay_play_cases own opponent w Hne)
      as (r & Hr & Hemp & Hfull).
    exists r, w. split; [exact Hr |]. split; [| auto].
    destruct opponent as [|o ot].
    + now apply Hemp.
    + destruct Hfull as (h & _ & Hsome & Hnone); [discriminate |].
      destruct (filter (fun x => h <? x) own) as [|c ct] eqn:Hf.
      * apply Hnone. intros (x & Hx & Hlt).
        pose proof (filter_none_nil _ _ Hf x Hx) as Hfalse. simpl in Hfalse.
        lia.
      * assert (In c (filter (fun x => h <? x) own)) as Hc
          by (rewrite Hf; now left).
        apply filter_In in Hc. destruct Hc as [Hc Hlt].
        apply Hsome. exists c. split; [exact Hc | lia].
Qed.

(** C2: every concrete strategy, on a non-empty [own], returns normally a
    number that is in [own]. *)
Theorem C2_play_returns_member s own opponent w :
  In s concrete_strategies ->
  own <> [] ->
  exists r w', Strategy.play s own opponent w = (Return r, w') /\ In r own.
Proof.
  intros Hs Hne.
  destruct (concrete_play_member s own opponent w Hs Hne)
    as (r & w' & Hr & Hin & _).
  now exists r, w'.
Qed.

Lemma C2_play_returns_member_witness :
  exists r w',
    Strategy.play RandomStrategy.new [4; 9; 2] [1] quiet_world
      = (Return r, w') /\ In r [4; 9; 2].
Proof.
  apply (C2_play_returns_member RandomStrategy.new [4; 9; 2] [1] quiet_world).
  - simpl. auto.
  - discriminate.
Defined.

(** C7: on a non-empty [own] Highest returns the maximum of [own] and
    Lowest its minimum; Highest, Lowest and Beat-Opponent-Max give the same
    outcome in any two worlds, and do not touch the world they run in. *)
Theorem C7_highest_lowest_deterministic own opponent :
  (own <> [] ->
   forall w,
     (exists m, HighCardStrategy.play own opponent w = (Return m, w)
                /\ is_maximum own m) /\
     (exists m, LowCardStrategy.play own opponent w = (Return m, w)
                /\ is_minimum own m)) /\
  (forall s,
     s = HighCardStrategy.new \/ s = LowCardStrategy.new \/
     s = StrategicPlay.new ->
     forall w1 w2,
       fst (Strategy.play s own opponent w1)
         = fst (Strategy.play s own opponent w2) /\
       snd (Strategy.play s own opponent w1) = w1).
Proof.
  split.
  - intros Hne w. split.
    + now apply HighCard_play_maximum.
    + now apply LowCard_play_minimum.
  - intros s [-> | [-> | ->]] w1 w2; simpl.
    + split; reflexivity.
    + split; reflexivity.
    + unfold StrategicPlay.play, bind, lift.
      destruct opponent as [|o ot]; [split; reflexivity |].
      destruct (Py.max (o :: ot)) as [h | e]; [| split; reflexivity].
      destruct (filter (fun card => card >? h) own); split; reflexivity.
Qed.

Lemma C7_highest_lowest_deterministic_witness :
  (exists m, HighCardStrategy.play [3; 12; 5] [1] quiet_world
             = (Return m, quiet_world) /\ is_maximum [3; 12; 5] m) /\
  fst (Strategy.play StrategicPlay.new [3; 12; 5] [4]
         (mkWorld ["a"] [] (fun n => n) 2))
    = fst (Strategy.play StrategicPlay.new [3; 12; 5] [4] quiet_world).
Proof.
  destruct (C7_highest_lowest_deterministic [3; 12; 5] [1]) as [H _].
  destruct (C7_highest_lowest_deterministic [3; 12; 5] [4]) as [_ D].
  split.
  - apply (H ltac:(discriminate) quiet_world).
  - apply (D StrategicPlay.new); auto.
Defined.

End Strategies.

(** ** Strategies on an empty list *)

Section EmptyOwn.

(** C6, as the specification states it, fails: Highest on an empty list
    raises the [ValueError] of [max], which is not an [InvalidState]
    condition; so not every strategy fails with [InvalidState]. *)
Lemma C6_no_InvalidState_counterexample :
  ~ (forall s, In s concrete_strategies ->
     forall opponent w,
     exists e w', Strategy.play s [] opponent w = (Raise e, w')
                  /\ Py.exn_name e = "InvalidState").
Proof.
  intros H.
  destruct (H HighCardStrategy.new ltac:(simpl; auto) [] quiet_world)
    as (e & w' & Hplay & Hname).
  vm_compute in Hplay. inversion Hplay; subst e. discriminate Hname.
Qed.

(** C6, amended: with an empty [own] no strategy succeeds and none makes a
    check of its own; each fails with the error of the built-in it calls
    first, [IndexError] from [random.choice] for Random and [ValueError] from
    [max] or [min] for Highest, Lowest and Beat-Opponent-Max, leaving the
    world as it was.  No exception of the program is called
    [InvalidState]. *)
Theorem C6_empty_own_builtin_error opponent w :
  RandomStrategy.play [] opponent w = (Raise IndexError, w) /\
  HighCardStrategy.play [] opponent w = (Raise ValueError, w) /\
  LowCardStrategy.play [] opponent w = (Raise ValueError, w) /\
  StrategicPlay.play [] opponent w = (Raise ValueError, w) /\
  (forall e, String.eqb (Py.exn_name e) "InvalidState" = false).
Proof.
  repeat split.
  - unfold StrategicPlay.play, bind, lift.
    destruct opponent as [|o ot]; reflexivity.
  - intros e. destruct e; reflexivity.
Qed.

End EmptyOwn.

(** ** Player.remove_number *)

Section RemoveNumber.

Lemma remove_number_present p n :
  In n (Player.numbers p) ->
  exists l1 l2,
    Player.numbers p = l1 ++ n :: l2 /\ ~ In n l1 /\
    Player.remove_number p n
      = Return (true, Player.mk (Player.name p) (Player.score p) (l1 ++ l2)).
Proof.
  intros Hin. unfold Player.remove_number.
  destruct (list_remove_In n _ Hin) as (l1 & l2 & Heq & Hnot & Hrem).
  exists l1, l2. repeat split; auto.
  apply contains_In in Hin. rewrite Hin, Hrem. reflexivity.
Qed.

Lemma remove_number_absent p n :
  ~ In n (Player.numbers p) ->
  Player.remove_number p n = Return (false, p).
Proof.
  intros Hnot. unfold Player.remove_number.
  apply contains_not_In in Hnot. now rewrite Hnot.
Qed.

(** Whatever the number, the call returns, and the list it leaves is the old
    one or the old one less the first occurrence of the number. *)
Lemma remove_number_total p n :
  exists b l,
    Player.remove_number p n
      = Return (b, Player.mk (Player.name p) (Player.score p) l) /\
    (b = false /\ l = Player.numbers p /\ ~ In n l \/
     b = true /\ exists l1 l2, Player.numbers p = l1 ++ n :: l2
                               /\ ~ In n l1 /\ l = l1 ++ l2).
Proof.
  destruct (in_dec Z.eq_dec n (Player.numbers p)) as [Hin | Hnot].
  - destruct (remove_number_present p n Hin) as (l1 & l2 & Heq & Hn & Hrem).
    exists true, (l1 ++ l2). split; [exact Hrem | right].
    split; [reflexivity |]. now exists l1, l2.
  - exists false, (Player.numbers p). split.
    + rewrite (remove_number_absent p n Hnot). now destruct p.
    + left. auto.
Qed.

(** C10: [remove_number(n)] returns [True] and deletes one occurrence of
    [n], the first, when [n] is in the player's list; it returns [False] and
    leaves the player as it was when [n] is not; in both cases it returns and
    raises nothing. *)
Theorem C10_remove_number p n :
  (In n (Player.numbers p) ->
   exists l1 l2,
     Player.numbers p = l1 ++ n :: l2 /\ ~ In n l1 /\
     Player.remove_number p n
       = Return (true, Player.mk (Player.name p) (Player.score p) (l1 ++ l2))) /\
  (~ In n (Player.numbers p) ->
   Player.remove_number p n = Return (false, p)) /\
  (exists b p', Player.remove_number p n = Return (b, p')).
Proof.
  split; [apply remove_number_present |].
  split; [apply remove_number_absent |].
  destruct (remove_number_total p n) as (b & l & H & _). eauto.
Qed.

Lemma C10_remove_number_witness :
  (exists l1 l2,
     [4; 9; 4; 1] = l1 ++ 4 :: l2 /\ ~ In 4 l1 /\
     Player.remove_number (Player.mk "You" 2 [4; 9; 4; 1]) 4
       = Return (true, Player.mk "You" 2 (l1 ++ l2))) /\
  Player.remove_number (Player.mk "You" 2 [4; 9; 4; 1]) 7
    = Return (false, Player.mk "You" 2 [4; 9; 4; 1]).
Proof.
  split.
  - apply (proj1 (C10_remove_number (Player.mk "You" 2 [4; 9; 4; 1]) 4)).
    simpl. auto.
  - apply (proj1 (proj2 (C10_remove_number (Player.mk "You" 2 [4; 9; 4; 1]) 7))).
    simpl. intros [H7 | [H7 | [H7 | [H7 | []]]]]; discriminate.
Defined.

End RemoveNumber.

(** ** One turn: Game._update_game_state *)

Section UpdateGameState.

(** The function returns for all arguments; the names are kept, each score
    moves as the comparison says, and each list is what [remove_number]
    leaves. *)
Lemma update_game_state_shape self c1 c2 p1 p2 w :
  exists l1 l2 w',
    Game._update_game_state self c1 c2 p1 p2 w
      = (Return (Player.mk (Player.name p1)
                   (score_after c1 c2 (Player.score p1)) l1,
                 Player.mk (Player.name p2)
                   (score_after c2 c1 (Player.score p2)) l2), w') /\
    (exists b1, Player.remove_number p1 c1
                = Return (b1, Player.mk (Player.name p1) (Player.score p1) l1)) /\
    (exists b2, Player.remove_number p2 c2
                = Return (b2, Player.mk (Player.name p2) (Player.score p2) l2)) /\
    stdin w' = stdin w /\ rng w' = rng w /\ rng_pos w' = rng_pos w.
Proof.
  destruct (remove_number_total p1 c1) as (b1 & l1 & H1 & _).
  destruct (remove_number_total p2 c2) as (b2 & l2 & H2 & _).
  exists l1, l2.
  unfold Game._update_game_state, score_after, bind, lift, print, ret.
  unfold Player.remove_number in *. simpl in *.
  destruct (Z.gtb_spec c1 c2) as [Hgt | Hle].
  - assert ((c2 >? c1) = false) as -> by lia. simpl.
    destruct (Py.contains c1 (Player.numbers p1));
      destruct (Py.list_remove c1 (Player.numbers p1));
      destruct (Py.contains c2 (Player.numbers p2));
      destruct (Py.list_remove c2 (Player.numbers p2));
      simpl in *; try discriminate;
      inversion H1; inversion H2; subst;
      eexists; (split; [reflexivity | repeat split; eauto]).
  - destruct (Z.gtb_spec c2 c1) as [Hgt' | Hle']; simpl;
    destruct (Py.contains c1 (Player.numbers p1));
      destruct (Py.list_remove c1 (Player.numbers p1));
      destruct (Py.contains c2 (Player.numbers p2));
      destruct (Py.list_remove c2 (Player.numbers p2));
      simpl in *; try discriminate;
      inversion H1; inversion H2; subst;
      eexists; (split; [reflexivity | repeat split; eauto]).
Qed.

(** When both numbers played are in the lists they are played from, the
    turn is resolved and both lists are one shorter. *)
Lemma update_game_state_present self c1 c2 p1 p2 w :
  In c1 (Player.numbers p1) ->
  In c2 (Player.numbers p2) ->
  exists p1' p2' w',
    Game._update_game_state self c1 c2 p1 p2 w = (Return (p1', p2'), w') /\
    (exists a b, Player.numbers p1 = a ++ c1 :: b /\ ~ In c1 a
                 /\ Player.numbers p1' = a ++ b) /\
    (exists a b, Player.numbers p2 = a ++ c2 :: b /\ ~ In c2 a
                 /\ Player.numbers p2' = a ++ b) /\
    S (List.length (Player.numbers p1')) = List.length (Player.numbers p1) /\
    S (List.length (Player.numbers p2')) = List.length (Player.numbers p2).
Proof.
  intros Hin1 Hin2.
  destruct (update_game_state_shape self c1 c2 p1 p2 w)
    as (l1 & l2 & w' & Hrun & (b1 & Hr1) & (b2 & Hr2) & _).
  destruct (remove_number_present p1 c1 Hin1) as (a1 & r1 & Hs1 & Hn1 & Hp1).
  destruct (remove_number_present p2 c2 Hin2) as (a2 & r2 & Hs2 & Hn2 & Hp2).
  rewrite Hr1 in Hp1. rewrite Hr2 in Hp2.
  inversion Hp1; subst. inversion Hp2; subst.
  do 3 eexists. split; [exact Hrun |]. simpl.
  split; [now exists a1, r1 |]. split; [now exists a2, r2 |].
  rewrite Hs1, Hs2, !length_app. simpl. lia.
Qed.

(** C3: the turn is resolved for every pair of numbers: the greater number
    gives its side one point and leaves the other score as it was, equal
    numbers change neither score.  The names are kept, and each list of
    numbers is the old one or the old one less the first occurrence of the
    number played; the input and the random generator are not touched. *)
Theorem C3_update_game_state_scores self c1 c2 p1 p2 w :
  exists p1' p2' w',
    Game._update_game_state self c1 c2 p1 p2 w = (Return (p1', p2'), w') /\
    (c1 > c2 -> Player.score p1' = Player.score p1 + 1
                /\ Player.score p2' = Player.score p2) /\
    (c2 > c1 -> Player.score p2' = Player.score p2 + 1
                /\ Player.score p1' = Player.score p1) /\
    (c1 = c2 -> Player.score p1' = Player.score p1
                /\ Player.score p2' = Player.score p2) /\
    Player.name p1' = Player.name p1 /\
    Player.name p2' = Player.name p2 /\
    (Player.numbers p1' = Player.numbers p1 \/
     exists a b, Player.numbers p1 = a ++ c1 :: b
                 /\ Player.numbers p1' = a ++ b) /\
    (Player.numbers p2' = Player.numbers p2 \/
     exists a b, Player.numbers p2 = a ++ c2 :: b
                 /\ Player.numbers p2' = a ++ b) /\
    stdin w' = stdin w /\ rng w' = rng w /\ rng_pos w' = rng_pos w.
Proof.
  destruct (update_game_state_shape self c1 c2 p1 p2 w)
    as (l1 & l2 & w' & Hrun & (b1 & Hr1) & (b2 & Hr2) & Hin & Hrng & Hpos).
  do 3 eexists. split; [exact Hrun |]. unfold score_after. simpl.
  split; [intros H; assert ((c1 >? c2) = true) as -> by lia;
          assert ((c2 >? c1) = false) as -> by lia; auto |].
  split; [intros H; assert ((c1 >? c2) = false) as -> by lia;
          assert ((c2 >? c1) = true) as -> by lia; auto |].
  split; [intros H; assert ((c1 >? c2) = false) as -> by lia;
          assert ((c2 >? c1) = false) as -> by lia; auto |].
  split; [reflexivity |]. split; [reflexivity |].
  split; [| split; [| auto]].
  - destruct (remove_number_total p1 c1) as (b & l & H & Hcases).
    rewrite Hr1 in H. inversion H; subst l.
    destruct Hcases as [(_ & -> & _) | (_ & a & b' & Ha & _ & ->)]; eauto.
  - destruct (remove_number_total p2 c2) as (b & l & H & Hcases).
    rewrite Hr2 in H. inversion H; subst l.
    destruct Hcases as [(_ & -> & _) | (_ & a & b' & Ha & _ & ->)]; eauto.
Qed.

Lemma C3_update_game_state_scores_witness :
  exists p1' p2' w',
    Game._update_game_state Game.new 10 3 (Player.new "A") (Player.new "B")
      quiet_world = (Return (p1', p2'), w') /\
    Player.score p1' = 1 /\ Player.score p2' = 0.
Proof.
  destruct (C3_update_game_state_scores Game.new 10 3
              (Player.new "A") (Player.new "B") quiet_world)
    as (p1' & p2' & w' & Hrun & Hgt & _).
  exists p1', p2', w'. split; [exact Hrun |].
  apply Hgt. lia.
Defined.

(** C4: when each number played is in its side's list, the turn removes
    one occurrence of it from that list, whatever the outcome: both lists
    are one shorter.  On fresh hands a tie at 7 leaves both scores at 0 and
    takes 7 out of both lists. *)
Theorem C4_update_game_state_removes self c1 c2 p1 p2 w :
  (In c1 (Player.numbers p1) ->
   In c2 (Player.numbers p2) ->
   exists p1' p2' w',
     Game._update_game_state self c1 c2 p1 p2 w = (Return (p1', p2'), w') /\
     (exists a b, Player.numbers p1 = a ++ c1 :: b /\ ~ In c1 a
                  /\ Player.numbers p1' = a ++ b) /\
     (exists a b, Player.numbers p2 = a ++ c2 :: b /\ ~ In c2 a
                  /\ Player.numbers p2' = a ++ b) /\
     S (List.length (Player.numbers p1')) = List.length (Player.numbers p1) /\
     S (List.length (Player.numbers p2')) = List.length (Player.numbers p2)) /\
  (exists w',
     Game._update_game_state self 7 7 (Player.new "A") (Player.new "B") w
       = (Return
            (Player.mk "A" 0 [1; 2; 3; 4; 5; 6; 8; 9; 10; 11; 12; 13],
             Player.mk "B" 0 [1; 2; 3; 4; 5; 6; 8; 9; 10; 11; 12; 13]), w')).
Proof.
  split.
  - apply update_game_state_present.
  - eexists. reflexivity.
Qed.

Lemma C4_update_game_state_removes_witness :
  exists p1' p2' w',
    Game._update_game_state Game.new 10 3 (Player.new "A") (Player.new "B")
      quiet_world = (Return (p1', p2'), w') /\
    S (List.length (Player.numbers p1')) = 13%nat /\
    S (List.length (Player.numbers p2')) = 13%nat.
Proof.
  destruct (C4_update_game_state_removes Game.new 10 3
              (Player.new "A") (Player.new "B") quiet_world) as [H _].
  destruct H as (p1' & p2' & w' & Hrun & _ & _ & Hl1 & Hl2).
  - vm_compute. tauto.
  - vm_compute. tauto.
  - exists p1', p2', w'. repeat split; assumption.
Defined.

End UpdateGameState.

(** ** The interactive turn *)

Section InteractiveTurn.

Lemma display_status_returns self turn p1 p2 w :
  exists w',
    Game._display_status self turn p1 p2 w = (Return tt, w') /\
    stdin w' = stdin w /\ rng w' = rng w /\ rng_pos w' = rng_pos w.
Proof.
  eexists. split; [reflexivity | auto].
Qed.

(** The input loop leaves with a number of the player's list, whose first
    occurrence it has removed, or with [EOFError] when the input ends; it
    changes nothing else in the game. *)
Lemma get_player_choice_loop_outcome self lines : forall w,
  match Game._get_player_choice_loop self lines w with
  | (Return (choice, self1), w1) =>
      exists a b,
        Player.numbers (Game.player self) = a ++ choice :: b /\
        ~ In choice a /\
        self1 = Game.set_players self
                  (Player.mk (Player.name (Game.player self))
                     (Player.score (Game.player self)) (a ++ b))
                  (Game.computer self)
  | (Raise e, w1) => e = EOFError /\ stdin w1 = []
  end.
Proof.
  induction lines as [|line rest IH]; intro w; simpl.
  - auto.
  - destruct (Py.int line) as [choice |]; [| apply IH].
    destruct (in_dec Z.eq_dec choice (Player.numbers (Game.player self)))
      as [Hin | Hnot].
    + destruct (remove_number_present _ _ Hin) as (a & b & Heq & Hn & ->).
      exists a, b. auto.
    + rewrite (remove_number_absent _ _ Hnot). apply IH.
Qed.

Lemma NoDup_remove_middle (a b : list Z) x :
  NoDup (a ++ x :: b) -> NoDup (a ++ b) /\ ~ In x (a ++ b).
Proof.
  intros H. split; [eapply NoDup_remove_1 | eapply NoDup_remove_2]; eauto.
Qed.

(** [for] loops: a property of the state that one turn takes from [S m]
    to [m] goes from [length xs + m] to [m] over the turns [xs], and what
    holds of every exception of a turn holds of the exception of the loop. *)
Lemma for_countdown {X St : Type} (J : nat -> St -> Prop)
  (E : exn -> World -> Prop) (body : X -> St -> M St) :
  (forall x s w m,
     J (S m) s ->
     match body x s w with
     | (Return s', _) => J m s'
     | (Raise e, w') => E e w'
     end) ->
  forall xs s w m,
    J (List.length xs + m)%nat s ->
    match for_ xs body s w with
    | (Return s', _) => J m s'
    | (Raise e, w') => E e w'
    end.
Proof.
  intros Hstep xs. induction xs as [|x t IH]; intros s w m HJ; simpl.
  - exact HJ.
  - unfold bind. specialize (Hstep x s w (List.length t + m)%nat HJ).
    destruct (body x s w) as [[s' | e] w']; [apply IH |]; assumption.
Qed.

(** A property that every turn keeps is kept by the loop. *)
Lemma for_preserves {X St : Type} (J : St -> Prop) (body : X -> St -> M St) :
  (forall x s w s' w', J s -> body x s w = (Return s', w') -> J s') ->
  forall xs s w s' w',
    J s -> for_ xs body s w = (Return s', w') -> J s'.
Proof.
  intros Hstep xs. induction xs as [|x t IH]; intros s w s' w' HJ; simpl.
  - unfold ret. intros H. now inversion H; subst.
  - unfold bind. destruct (body x s w) as [[s1 | e] w1] eqn:Hb.
    + intros H. eapply IH; [| exact H]. eapply Hstep; eauto.
    + discriminate.
Qed.

Lemma play_turn_from_prompt turn self w :
  Game.play_turn turn self w =
  ('(player_choice, self1) <- Game._get_player_choice self ;;
   computer_choice <-
     Game.computer_play self1 (Player.numbers (Game.computer self1))
       (Player.numbers (Game.player self1)) ;;
   '(p, c) <- Game._update_game_state self1 player_choice computer_choice
                (Game.player self1) (Game.computer self1) ;;
   ret (Game.set_current_turn (Game.set_players self1 p c)
          (Game.current_turn self1 + 1))) (world_at_prompt self w).
Proof.
  reflexivity.
Qed.

Lemma play_turn_split turn self w s :
  Game.computer_strategy self = Some s ->
  match Game._get_player_choice self (world_at_prompt self w) with
  | (Return (choice, self1), w1) =>
      Game.play_turn turn self w = after_choice s choice self1 w1 /\
      Game.computer_strategy self1 = Some s
  | (Raise e, w1) => Game.play_turn turn self w = (Raise e, w1)
  end.
Proof.
  intros Hs.
  set (w0 := world_at_prompt self w).
  pose proof (get_player_choice_loop_outcome self (stdin w0) w0) as Hout.
  fold (Game._get_player_choice self w0) in Hout.
  destruct (Game._get_player_choice self w0)
    as [[[choice self1] | e] w1] eqn:Hget;
    rewrite play_turn_from_prompt; unfold bind at 1; fold w0; rewrite Hget;
    [| reflexivity].
  destruct Hout as (a & b & _ & _ & ->).
  unfold after_choice, Game.computer_play. simpl. rewrite Hs. auto.
Qed.

(** The human's list keeps its numbers distinct through the turns of
    [play]. *)
Lemma play_turn_NoDup turn self w self' w' :
  NoDup (Player.numbers (Game.player self)) ->
  Game.play_turn turn self w = (Return self', w') ->
  NoDup (Player.numbers (Game.player self')).
Proof.
  intros Hnd. rewrite play_turn_from_prompt.
  set (w0 := world_at_prompt self w).
  pose proof (get_player_choice_loop_outcome self (stdin w0) w0) as Hout.
  fold (Game._get_player_choice self w0) in Hout.
  unfold bind at 1.
  destruct (Game._get_player_choice self w0)
    as [[[choice self1] | e] w1]; [| discriminate].
  destruct Hout as (a & b & Heq & _ & ->).
  rewrite Heq in Hnd. apply NoDup_remove_middle in Hnd.
  destruct Hnd as [Hnd Hnot].
  unfold bind at 1.
  destruct (Game.computer_play _ _ _ w1) as [[cc | e] w2]; [| discriminate].
  unfold bind at 1.
  match goal with
  | |- context [Game._update_game_state ?g ?c1 ?c2 ?p1 ?p2 ?w] =>
      destruct (update_game_state_shape g c1 c2 p1 p2 w)
        as (l1 & l2 & w3 & Hrun & (b1 & Hr1) & _)
  end.
  rewrite Hrun. unfold ret. intros H. inversion H; subst. clear H.
  simpl in *. rewrite remove_number_absent in Hr1 by (simpl; exact Hnot).
  inversion Hr1; subst. exact Hnd.
Qed.

Lemma in_play_NoDup self :
  in_play self -> NoDup (Player.numbers (Game.player self)).
Proof.
  intros (s & turns & w & w' & Hrun).
  refine (for_preserves
            (fun g => NoDup (Player.numbers (Game.player g)))
            Game.play_turn _ turns _ w self w' _ Hrun).
  - intros x g v g' v' Hg Hstep. eapply play_turn_NoDup; eauto.
  - vm_compute. repeat constructor; simpl; intuition discriminate.
Qed.

(** C9: in a turn of [play] the input loop has already taken the
    human's number out of the human's list when the computer's strategy is
    called: the strategy is called on the game and in the world that the
    input loop returned, its second argument is the human's list of that
    game, which does not hold the number, and the removal of that number
    from this list when the turn is resolved returns [False] and changes
    nothing. *)
Theorem C9_choice_removed_before_strategy turn self w s choice self1 w1 :
  in_play self ->
  Game.computer_strategy self = Some s ->
  Game._get_player_choice self (world_at_prompt self w)
    = (Return (choice, self1), w1) ->
  In choice (Player.numbers (Game.player self)) /\
  ~ In choice (Player.numbers (Game.player self1)) /\
  Game.play_turn turn self w = after_choice s choice self1 w1 /\
  (forall p, Player.numbers p = Player.numbers (Game.player self1) ->
             Player.remove_number p choice = Return (false, p)) /\
  (forall self2 w2, Game.play_turn turn self w = (Return self2, w2) ->
     Player.numbers (Game.player self2) = Player.numbers (Game.player self1)).
Proof.
  intros Hplay Hs Hget.
  pose proof (in_play_NoDup self Hplay) as Hnd.
  pose proof (play_turn_split turn self w s Hs) as Hsplit.
  rewrite Hget in Hsplit. destruct Hsplit as [Hturn _].
  pose proof (get_player_choice_loop_outcome self
                (stdin (world_at_prompt self w)) (world_at_prompt self w))
    as Hout.
  unfold Game._get_player_choice in Hget. rewrite Hget in Hout.
  destruct Hout as (a & b & Heq & Hna & ->).
  rewrite Heq in Hnd. apply NoDup_remove_middle in Hnd.
  destruct Hnd as [Hnd Hnot]. simpl.
  split; [rewrite Heq; apply in_or_app; right; now left |].
  split; [exact Hnot |]. split; [exact Hturn |].
  split.
  - intros p Hp. apply remove_number_absent. rewrite Hp. exact Hnot.
  - intros self2 w2. rewrite Hturn. unfold after_choice, bind.
    destruct (Strategy.play s _ _ w1) as [[cc | e] v]; [| discriminate].
    match goal with
    | |- context [Game._update_game_state ?g ?c1 ?c2 ?p1 ?p2 ?w] =>
        destruct (update_game_state_shape g c1 c2 p1 p2 w)
          as (l1 & l2 & w3 & Hrun & (b1 & Hr1) & _)
    end.
    rewrite Hrun. unfold ret. intros H. inversion H; subst. clear H.
    simpl in *. rewrite remove_number_absent in Hr1 by (simpl; exact Hnot).
    now inversion Hr1.
Qed.

Lemma C9_choice_removed_before_strategy_witness :
  exists self1 w1,
    In 13 (Player.numbers (Game.player Game.new)) /\
    ~ In 13 (Player.numbers (Game.player self1)) /\
    Game.play_turn 0 (Game.set_computer_strategy Game.new StrategicPlay.new)
      (mkWorld ["13"] [] (fun n => n) O)
    = after_choice StrategicPlay.new 13 self1 w1 /\
    (forall p, Player.numbers p = Player.numbers (Game.player self1) ->
               Player.remove_number p 13 = Return (false, p)) /\
    (forall self2 w2,
       Game.play_turn 0
         (Game.set_computer_strategy Game.new StrategicPlay.new)
         (mkWorld ["13"] [] (fun n => n) O) = (Return self2, w2) ->
       Player.numbers (Game.player self2)
         = Player.numbers (Game.player self1)).
Proof.
  do 2 eexists.
  apply (C9_choice_removed_before_strategy 0
           (Game.set_computer_strategy Game.new StrategicPlay.new)
           (mkWorld ["13"] [] (fun n => n) O) StrategicPlay.new 13).
  - exists StrategicPlay.new, [], quiet_world, quiet_world. reflexivity.
  - reflexivity.
  - vm_compute. reflexivity.
Defined.

End InteractiveTurn.

(** ** The match: thirteen turns *)

Section Match.

(** One turn of the simulation, with concrete strategies and lists that are
    not empty, returns and takes one number from each list. *)
Lemma simulate_turn_step self s1 s2 turn ps w m :
  In s1 concrete_strategies ->
  In s2 concrete_strategies ->
  hands_hold (S m) ps ->
  exists ps' w',
    Game.simulate_turn self s1 s2 turn ps w = (Return ps', w') /\
    hands_hold m ps'.
Proof.
  intros Hs1 Hs2 [Hl1 Hl2]. destruct ps as [p1 p2]. simpl in Hl1, Hl2.
  unfold Game.simulate_turn.
  destruct (display_status_returns self turn p1 p2 w) as (w0 & Hd & _).
  unfold bind at 1. rewrite Hd.
  destruct (concrete_play_member s1 (Player.numbers p1) (Player.numbers p2)
              w0 Hs1 (nonempty_length _ _ Hl1)) as (c1 & w1 & Hc1 & Hin1 & _).
  unfold bind at 1. rewrite Hc1.
  destruct (concrete_play_member s2 (Player.numbers p2) (Player.numbers p1)
              w1 Hs2 (nonempty_length _ _ Hl2)) as (c2 & w2 & Hc2 & Hin2 & _).
  unfold bind at 1. rewrite Hc2.
  destruct (update_game_state_present self c1 c2 p1 p2 w2 Hin1 Hin2)
    as (p1' & p2' & w3 & Hrun & _ & _ & Hn1 & Hn2).
  exists (p1', p2'), w3. split; [exact Hrun |].
  split; simpl; lia.
Qed.

(** The loop of the simulation over [k] turns takes [k] numbers from each
    list and raises nothing. *)
Lemma simulate_turns_countdown self s1 s2 turns ps w m :
  In s1 concrete_strategies ->
  In s2 concrete_strategies ->
  hands_hold (List.length turns + m) ps ->
  exists ps' w',
    Game.simulate_turns self s1 s2 turns ps w = (Return ps', w') /\
    hands_hold m ps'.
Proof.
  intros Hs1 Hs2 Hh.
  pose proof (for_countdown hands_hold (fun _ _ => False)
                (Game.simulate_turn self s1 s2)) as Hloop.
  unfold Game.simulate_turns.
  assert (Hturns :
            match for_ turns (Game.simulate_turn self s1 s2) ps w with
            | (Return s', _) => hands_hold m s'
            | (Raise e, _) => False
            end).
  { apply Hloop; [| exact Hh].
    intros x s v k Hk.
    destruct (simulate_turn_step self s1 s2 x s v k Hs1 Hs2 Hk)
      as (ps' & w' & Heq & Hh').
    rewrite Heq. exact Hh'. }
  destruct (for_ turns (Game.simulate_turn self s1 s2) ps w)
    as [[ps' | e] w']; [eauto | destruct Hturns].
Qed.

Lemma lookup_In key s d :
  Game.lookup key d = Some s -> In s (map snd d).
Proof.
  induction d as [|[k v] d IH]; simpl; [discriminate |].
  destruct (String.eqb k key).
  - intros H. inversion H. now left.
  - intros H. right. now apply IH.
Qed.

Lemma lookup_concrete key s :
  Game.lookup key (Game.strategies Game.new) = Some s ->
  In s concrete_strategies.
Proof.
  apply lookup_In.
Qed.

Lemma select_choice_loop_outcome self prompt lines : forall w,
  match Game._select_choice_loop self prompt lines w with
  | (Return choice, _) =>
      exists s, Game.lookup choice (Game.strategies self) = Some s
  | (Raise e, w') => e = EOFError /\ stdin w' = []
  end.
Proof.
  induction lines as [|line rest IH]; intro w; simpl; [auto |].
  destruct (Game.lookup line (Game.strategies self)) as [s |] eqn:Hl.
  - now exists s.
  - apply IH.
Qed.

Lemma print_menu_returns self w :
  exists w', Game.print_menu self w = (Return tt, w') /\ stdin w' = stdin w.
Proof.
  unfold Game.print_menu. generalize (Game.strategies self). intros d.
  revert w. induction d as [|[k v] d IH]; intros w; simpl.
  - now exists w.
  - rewrite bind_print.
    destruct (IH (write (("  (" ++ k ++ ") " ++ Strategy.name v) ++ nl) w))
      as (w' & Hrun & Hin).
    exists w'. split; [exact Hrun | exact Hin].
Qed.

(** The selection of the two strategies returns strategies of the game, or
    stops with [EOFError] at the end of the input. *)
Lemma select_simulation_strategies_outcome self w :
  match Game._select_simulation_strategies self w with
  | (Return (s1, s2), _) =>
      (exists k1, Game.lookup k1 (Game.strategies self) = Some s1) /\
      (exists k2, Game.lookup k2 (Game.strategies self) = Some s2)
  | (Raise e, w') => e = EOFError /\ stdin w' = []
  end.
Proof.
  unfold Game._select_simulation_strategies.
  rewrite bind_print.
  destruct (print_menu_returns self
              (write ("Choose two strategies to face off:" ++ nl) w))
    as (w1 & Hmenu & _).
  rewrite (bind_return _ _ _ _ _ Hmenu).
  unfold bind at 1.
  pose proof (select_choice_loop_outcome self "Enter choice for Player 1: "
                (stdin w1) w1) as H1.
  destruct (Game._select_choice_loop self _ (stdin w1) w1)
    as [[choice1 | e] w2]; [| exact H1].
  destruct H1 as (s1 & Hk1).
  unfold bind at 1.
  pose proof (select_choice_loop_outcome self "Enter choice for Player 2: "
                (stdin w2) w2) as H2.
  destruct (Game._select_choice_loop self _ (stdin w2) w2)
    as [[choice2 | e] w3]; [| exact H2].
  destruct H2 as (s2 & Hk2).
  rewrite Hk1, Hk2. unfold bind, print, ret. eauto.
Qed.

(** A turn of [play] takes one number from each list and steps the counter,
    or stops with [EOFError] when the input ends. *)
Lemma play_turn_step turn self w m :
  play_state (S m) self ->
  match Game.play_turn turn self w with
  | (Return self', _) => play_state m self'
  | (Raise e, w') => e = EOFError /\ stdin w' = []
  end.
Proof.
  intros (Hl1 & Hl2 & Hnd & (s & Hs & Hconc) & Hturn).
  pose proof (play_turn_split turn self w s Hs) as Hsplit.
  set (w0 := world_at_prompt self w) in *.
  pose proof (get_player_choice_loop_outcome self (stdin w0) w0) as Hout.
  fold (Game._get_player_choice self w0) in Hout.
  destruct (Game._get_player_choice self w0) as [[[choice self1] | e] w1].
  2:{ rewrite Hsplit. exact Hout. }
  destruct Hsplit as [-> Hs1].
  destruct Hout as (a & b & Heq & Hna & ->).
  rewrite Heq in Hnd. apply NoDup_remove_middle in Hnd.
  destruct Hnd as [Hnd Hnot].
  unfold after_choice. simpl.
  destruct (concrete_play_member s (Player.numbers (Game.computer self))
              (a ++ b) w1 Hconc (nonempty_length _ _ Hl2))
    as (cc & w2 & Hcc & Hin & _).
  rewrite (bind_return _ _ _ _ _ Hcc).
  match goal with
  | |- context [Game._update_game_state ?g ?c1 ?c2 ?p1 ?p2] =>
      destruct (update_game_state_shape g c1 c2 p1 p2 w2)
        as (l1 & l2 & w3 & Hrun & (b1 & Hr1) & (b2 & Hr2) & _)
  end.
  rewrite (bind_return _ _ _ _ _ Hrun). unfold ret.
  rewrite remove_number_absent in Hr1 by (simpl; exact Hnot).
  inversion Hr1; subst l1.
  destruct (remove_number_present _ _ Hin) as (a' & b' & Heq' & _ & Hp).
  rewrite Hr2 in Hp. inversion Hp; subst l2.
  assert (List.length (a ++ b) = m) as Hm1.
  { rewrite Heq, length_app in Hl1. simpl in Hl1.
    rewrite length_app. lia. }
  assert (List.length (a' ++ b') = m) as Hm2.
  { rewrite Heq', length_app in Hl2. simpl in Hl2.
    rewrite length_app. lia. }
  unfold play_state.
  cbn [Game.player Game.computer Game.computer_strategy Game.current_turn
       Game.set_current_turn Game.set_players Player.numbers].
  split; [exact Hm1 |]. split; [exact Hm2 |]. split; [exact Hnd |].
  split; [now exists s |]. lia.
Qed.





Lemma new_game_play_state s :
  In s concrete_strategies ->
  play_state 13 (Game.set_computer_strategy Game.new s).
Proof.
  intros Hs. repeat split; simpl; eauto.
  repeat constructor; simpl; intuition discriminate.
Qed.

Lemma new_players_hold n1 n2 :
  hands_hold 13 (Player.new n1, Player.new n2).
Proof.
  split; reflexivity.
Qed.

Lemma end_game_returns self p1 p2 w :
  exists w', Game._end_game self p1 p2 w = (Return tt, w')
             /\ stdin w' = stdin w.
Proof.
  unfold Game._end_game. repeat rewrite bind_print.
  destruct (Player.score p1 >? Player.score p2);
    [| destruct (Player.score p2 >? Player.score p1)];
    eexists; (split; [reflexivity | reflexivity]).
Qed.



(** Once the two strategies are selected, the simulation runs its loop over
    the whole range of turns and returns with both lists empty. *)
Lemma simulate_game_after_selection w s1 s2 w1 :
  Game._select_simulation_strategies Game.new w = (Return (s1, s2), w1) ->
  exists p1 p2 w2 w3,
    Game.simulate_turns Game.new s1 s2
      (Py.range 1 (Game.total_turns Game.new + 1))
      (Player.new (Strategy.name s1), Player.new (Strategy.name s2)) w1
      = (Return (p1, p2), w2) /\
    Game.simulate_game Game.new w = (Return (p1, p2), w3) /\
    Player.numbers p1 = [] /\ Player.numbers p2 = [].
Proof.
  intros Hsel.
  pose proof (select_simulation_strategies_outcome Game.new w) as Hout.
  rewrite Hsel in Hout. destruct Hout as [(k1 & Hk1) (k2 & Hk2)].
  apply lookup_concrete in Hk1. apply lookup_concrete in Hk2.
  destruct (simulate_turns_countdown Game.new s1 s2
              (Py.range 1 (Game.total_turns Game.new + 1))
              (Player.new (Strategy.name s1), Player.new (Strategy.name s2))
              w1 0%nat Hk1 Hk2 (new_players_hold _ _))
    as ([p1 p2] & w2 & Hrun & Hh1 & Hh2).
  destruct (end_game_returns Game.new p1 p2 w2) as (w3 & Hend & _).
  exists p1, p2, w2, w3. split; [exact Hrun |].
  split.
  - unfold Game.simulate_game.
    rewrite (bind_return _ _ _ _ _ Hsel).
    rewrite (bind_return _ _ _ _ _ Hrun).
    rewrite (bind_return _ _ _ _ _ Hend). reflexivity.
  - simpl in Hh1, Hh2. split; now apply length_zero_iff_nil.
Qed.










End Match.

(** ** Highest against Lowest *)

Section HighestAgainstLowest.

Lemma high_low_turn k w :
  1 <= k <= 13 ->
  exists p1 p2 w1,
    Game.simulate_turns Game.new HighCardStrategy.new LowCardStrategy.new
      (firstn (Z.to_nat (k - 1)) (Py.range 1 (Game.total_turns Game.new + 1)))
      high_low_start w = (Return (p1, p2), w1) /\
    HighCardStrategy.play (Player.numbers p1) (Player.numbers p2) w1
      = (Return (14 - k), w1) /\
    LowCardStrategy.play (Player.numbers p2) (Player.numbers p1) w1
      = (Return k, w1) /\
    Player.score p1 = Z.min (k - 1) 6 /\
    Player.score p2 = Z.max 0 (k - 8).
Proof.
  intros Hk.
  assert (k = 1 \/ k = 2 \/ k = 3 \/ k = 4 \/ k = 5 \/ k = 6 \/ k = 7 \/
          k = 8 \/ k = 9 \/ k = 10 \/ k = 11 \/ k = 12 \/ k = 13) as Hcases
    by lia.
  repeat (destruct Hcases as [-> | Hcases]); try subst k;
    match goal with
    | |- exists p1 p2 w1, ?run = _ /\ _ =>
        let r := fresh "r" in
        let Hr := fresh "Hr" in
        remember run as r eqn:Hr; vm_compute in Hr; subst r;
        do 3 eexists; (split; [reflexivity | repeat split])
    end.
Qed.

Lemma high_low_loop w :
  exists w',
    Game.simulate_turns Game.new HighCardStrategy.new LowCardStrategy.new
      (Py.range 1 (Game.total_turns Game.new + 1)) high_low_start w
    = (Return (Player.mk "High Card" 6 [], Player.mk "Low Card" 6 []), w') /\
    rng w' = rng w /\ rng_pos w' = rng_pos w.
Proof.
  match goal with
  | |- exists w', ?run = _ /\ _ =>
      let r := fresh "r" in
      let Hr := fresh "Hr" in
      remember run as r eqn:Hr; vm_compute in Hr; subst r
  end.
  eexists. split; [reflexivity | split; reflexivity].
Qed.

Lemma high_low_game w w1 :
  Game._select_simulation_strategies Game.new w
    = (Return (HighCardStrategy.new, LowCardStrategy.new), w1) ->
  exists w',
    Game.simulate_game Game.new w
    = (Return (Player.mk "High Card" 6 [], Player.mk "Low Card" 6 []), w') /\
    last (stdout w') EmptyString = (nl ++ "It's a tie game!" ++ nl)%string.
Proof.
  intros Hsel. unfold Game.simulate_game.
  rewrite (bind_return _ _ _ _ _ Hsel).
  match goal with
  | |- exists w', ?run = _ /\ _ =>
      let r := fresh "r" in
      let Hr := fresh "Hr" in
      remember run as r eqn:Hr; vm_compute in Hr; subst r
  end.
  eexists. split; [reflexivity |].
  exact (last_last _ _ _).
Qed.

(** C8: Highest against Lowest is one fixed match, whatever the world it
    is run in.  At turn [k], for [k] from 1 to 13, Highest plays [14 - k]
    and Lowest plays [k], and the scores before that turn are [min (k-1) 6]
    and [max 0 (k-8)]: Highest wins turns 1 to 6, turn 7 is a tie, Lowest
    wins turns 8 to 13.  The loop ends with 6 points each and both lists
    empty, and the simulation, once these two strategies are selected,
    returns these players and ends its output with the line of the tie. *)
Theorem C8_highest_against_lowest w :
  (forall k,
     1 <= k <= 13 ->
     exists p1 p2 w1,
       Game.simulate_turns Game.new HighCardStrategy.new LowCardStrategy.new
         (firstn (Z.to_nat (k - 1))
            (Py.range 1 (Game.total_turns Game.new + 1)))
         high_low_start w = (Return (p1, p2), w1) /\
       HighCardStrategy.play (Player.numbers p1) (Player.numbers p2) w1
         = (Return (14 - k), w1) /\
       LowCardStrategy.play (Player.numbers p2) (Player.numbers p1) w1
         = (Return k, w1) /\
       Player.score p1 = Z.min (k - 1) 6 /\
       Player.score p2 = Z.max 0 (k - 8)) /\
  (exists w',
     Game.simulate_turns Game.new HighCardStrategy.new LowCardStrategy.new
       (Py.range 1 (Game.total_turns Game.new + 1)) high_low_start w
     = (Return (Player.mk "High Card" 6 [], Player.mk "Low Card" 6 []), w')) /\
  (forall w1,
     Game._select_simulation_strategies Game.new w
       = (Return (HighCardStrategy.new, LowCardStrategy.new), w1) ->
     exists w',
       Game.simulate_game Game.new w
       = (Return (Player.mk "High Card" 6 [], Player.mk "Low Card" 6 []), w')
       /\ last (stdout w') EmptyString = (nl ++ "It's a tie game!" ++ nl)%string).
Proof.
  split; [intros k Hk; now apply high_low_turn |].
  split.
  - destruct (high_low_loop w) as (w' & Hrun & _). now exists w'.
  - intros w1 Hsel. now apply (high_low_game w w1).
Qed.

Lemma C8_highest_against_lowest_witness :
  (exists p1 p2 w1,
     Game.simulate_turns Game.new HighCardStrategy.new LowCardStrategy.new
       (firstn (Z.to_nat (9 - 1))
          (Py.range 1 (Game.total_turns Game.new + 1)))
       high_low_start (mkWorld ["5"; "2"; "3"] [] (fun n => n) O)
     = (Return (p1, p2), w1) /\
     HighCardStrategy.play (Player.numbers p1) (Player.numbers p2) w1
       = (Return (14 - 9), w1) /\
     LowCardStrategy.play (Player.numbers p2) (Player.numbers p1) w1
       = (Return 9, w1) /\
     Player.score p1 = Z.min (9 - 1) 6 /\
     Player.score p2 = Z.max 0 (9 - 8)) /\
  (exists w',
     Game.simulate_game Game.new (mkWorld ["5"; "2"; "3"] [] (fun n => n) O)
     = (Return (Player.mk "High Card" 6 [], Player.mk "Low Card" 6 []), w')
     /\ last (stdout w') EmptyString = (nl ++ "It's a tie game!" ++ nl)%string).
Proof.
  destruct (C8_highest_against_lowest
              (mkWorld ["5"; "2"; "3"] [] (fun n => n) O)) as (Hk & _ & Hg).
  split.
  - apply (Hk 9). lia.
  - eapply Hg. vm_compute. reflexivity.
Defined.

End HighestAgainstLowest.

(** ** More on Player.remove_number *)

Section RemoveNumberAlgebra.

Lemma list_remove_drop_first x l :
  Py.contains x l = true -> Py.list_remove x l = Return (drop_first x l).
Proof.
  induction l as [|y t IH]; simpl; [discriminate |].
  destruct (y =? x); [reflexivity |].
  intros H. now rewrite (IH H).
Qed.

Lemma drop_first_absent x l :
  Py.contains x l = false -> drop_first x l = l.
Proof.
  induction l as [|y t IH]; simpl; [reflexivity |].
  destruct (y =? x); [discriminate |].
  intros H. now rewrite (IH H).
Qed.

(** [remove_number] as a function: the boolean is the membership test and
    the list loses the first occurrence of the number. *)
Lemma remove_number_drop_first p n :
  Player.remove_number p n
  = Return (Py.contains n (Player.numbers p),
            Player.set_numbers p (drop_first n (Player.numbers p))).
Proof.
  unfold Player.remove_number.
  destruct (Py.contains n (Player.numbers p)) eqn:Hc.
  - now rewrite (list_remove_drop_first _ _ Hc).
  - rewrite (drop_first_absent _ _ Hc). now destruct p.
Qed.

Lemma drop_first_comm x y l :
  drop_first x (drop_first y l) = drop_first y (drop_first x l).
Proof.
  induction l as [|a t IH]; simpl; [reflexivity |].
  destruct (Z.eqb_spec a y) as [Hy | Hy];
    destruct (Z.eqb_spec a x) as [Hx | Hx]; simpl.
  - congruence.
  - destruct (Z.eqb_spec a y); [reflexivity | contradiction].
  - destruct (Z.eqb_spec a x); [reflexivity | contradiction].
  - destruct (Z.eqb_spec a x); [contradiction |].
    destruct (Z.eqb_spec a y); [contradiction |].
    now rewrite IH.
Qed.

Lemma count_occ_drop_first x l y :
  count_occ Z.eq_dec (drop_first x l) y
  = if Z.eq_dec y x then Nat.pred (count_occ Z.eq_dec l y)
    else count_occ Z.eq_dec l y.
Proof.
  induction l as [|a t IH]; simpl.
  - now destruct (Z.eq_dec y x).
  - destruct (Z.eqb_spec a x) as [Hax | Hax].
    + subst a. destruct (Z.eq_dec x y) as [Hxy | Hxy];
        destruct (Z.eq_dec y x) as [Hyx | Hyx]; try congruence; reflexivity.
    + simpl. rewrite IH.
      destruct (Z.eq_dec a y) as [Hay | Hay];
        destruct (Z.eq_dec y x) as [Hyx | Hyx]; try congruence; try reflexivity.
Qed.

Lemma drop_first_count_le x l y :
  (count_occ Z.eq_dec (drop_first x l) y <= count_occ Z.eq_dec l y)%nat.
Proof.
  rewrite count_occ_drop_first. destruct (Z.eq_dec y x); lia.
Qed.

(** X1: two removals from the same player can be made in either order:
    the player left is the same, whether or not the numbers are there. *)
Theorem X1_remove_number_commutes p n m :
  rbind (Player.remove_number p n)
    (fun r => rbind (Player.remove_number (snd r) m)
                (fun r' => Return (snd r')))
  = rbind (Player.remove_number p m)
      (fun r => rbind (Player.remove_number (snd r) n)
                  (fun r' => Return (snd r'))).
Proof.
  rewrite !remove_number_drop_first. simpl.
  rewrite !remove_number_drop_first. simpl.
  unfold Player.set_numbers. simpl.
  now rewrite drop_first_comm.
Qed.

(** X2: in a list without repetition a number can be removed once: when
    [remove_number(n)] has returned [True], the number is no longer in the
    list, the list is one shorter, and a second [remove_number(n)] returns
    [False] and changes nothing. *)
Theorem X2_remove_number_once p n :
  NoDup (Player.numbers p) ->
  In n (Player.numbers p) ->
  exists p',
    Player.remove_number p n = Return (true, p') /\
    ~ In n (Player.numbers p') /\
    NoDup (Player.numbers p') /\
    S (List.length (Player.numbers p')) = List.length (Player.numbers p) /\
    Player.remove_number p' n = Return (false, p').
Proof.
  intros Hnd Hin.
  destruct (remove_number_present p n Hin) as (a & b & Heq & Hna & Hrem).
  rewrite Heq in Hnd. apply NoDup_remove_middle in Hnd.
  destruct Hnd as [Hnd Hnot].
  eexists. split; [exact Hrem |]. simpl.
  split; [exact Hnot |]. split; [exact Hnd |].
  split.
  - rewrite Heq, !length_app. simpl. lia.
  - apply remove_number_absent. exact Hnot.
Qed.

Lemma X2_remove_number_once_witness :
  exists p',
    Player.remove_number (Player.new "You") 5 = Return (true, p') /\
    ~ In 5 (Player.numbers p') /\
    NoDup (Player.numbers p') /\
    S (List.length (Player.numbers p')) = 13%nat /\
    Player.remove_number p' 5 = Return (false, p').
Proof.
  apply (X2_remove_number_once (Player.new "You") 5).
  - vm_compute. repeat constructor; simpl; intuition discriminate.
  - vm_compute. tauto.
Defined.

End RemoveNumberAlgebra.

(** ** More on Beat-Opponent-Max *)

Section StrategicGuarantee.

Lemma filter_all_false (f : Z -> bool) l :
  (forall x, In x l -> f x = false) -> filter f l = [].
Proof.
  induction l as [|a t IH]; simpl; [reflexivity |].
  intros H. rewrite (H a (or_introl eq_refl)). apply IH.
  intros x Hx. apply H. now right.
Qed.

(** When some number of [own] is above every number of a non-empty
    [opponent], the strategy returns the least such number. *)
Lemma StrategicPlay_beats_all own opponent w :
  opponent <> [] ->
  (exists x, In x own /\ forall y, In y opponent -> y < x) ->
  exists r,
    StrategicPlay.play own opponent w = (Return r, w) /\
    In r own /\
    (forall y, In y opponent -> y < r) /\
    (forall x, In x own -> (forall y, In y opponent -> y < x) -> r <= x).
Proof.
  intros Hopp (x & Hx & Hbeats).
  assert (own <> []) as Hown by (intros ->; destruct Hx).
  destruct (StrategicPlay_play_cases own opponent w Hown)
    as (r & Hr & _ & Hfull).
  destruct (Hfull Hopp) as (h & [Hh Hhmax] & Hsome & _).
  destruct Hsome as [[Hrin Hrgt] Hleast].
  { exists x. split; [exact Hx | now apply Hbeats]. }
  exists r. split; [exact Hr |]. split; [exact Hrin |].
  split.
  - intros y Hy. specialize (Hhmax y Hy). lia.
  - intros z Hz Hzb. apply Hleast. split; [exact Hz | now apply Hzb].
Qed.

(** X3: Beat-Opponent-Max wins whenever it can.  If the opponent has
    numbers left and some number of [own] is above all of them, the number
    played is the least such number of [own]; and in a turn of the
    simulation the side that plays this strategy then gets the point,
    whatever concrete strategy the other side plays, be it the first side or
    the second. *)
Theorem X3_StrategicPlay_wins_when_it_can self s turn p1 p2 w :
  In s concrete_strategies ->
  Player.numbers p2 <> [] ->
  (exists x, In x (Player.numbers p1)
             /\ forall y, In y (Player.numbers p2) -> y < x) ->
  (exists r,
     StrategicPlay.play (Player.numbers p1) (Player.numbers p2) w
       = (Return r, w) /\
     In r (Player.numbers p1) /\
     (forall y, In y (Player.numbers p2) -> y < r) /\
     (forall x, In x (Player.numbers p1) ->
                (forall y, In y (Player.numbers p2) -> y < x) -> r <= x)) /\
  (exists p1' p2' w',
     Game.simulate_turn self StrategicPlay.new s turn (p1, p2) w
       = (Return (p1', p2'), w') /\
     Player.score p1' = Player.score p1 + 1 /\
     Player.score p2' = Player.score p2) /\
  (exists p2' p1' w',
     Game.simulate_turn self s StrategicPlay.new turn (p2, p1) w
       = (Return (p2', p1'), w') /\
     Player.score p1' = Player.score p1 + 1 /\
     Player.score p2' = Player.score p2).
Proof.
  intros Hs Hne Hex.
  split; [now apply StrategicPlay_beats_all |].
  destruct (display_status_returns self turn p1 p2 w) as (w0 & Hd & _).
  destruct (display_status_returns self turn p2 p1 w) as (v0 & Hd' & _).
  split.
  - destruct (StrategicPlay_beats_all _ _ w0 Hne Hex)
      as (r & Hr & Hrin & Hbeats & _).
    destruct (concrete_play_member s (Player.numbers p2) (Player.numbers p1)
                w0 Hs Hne) as (c & w1 & Hc & Hcin & _).
    destruct (update_game_state_shape self r c p1 p2 w1)
      as (l1 & l2 & w2 & Hrun & _).
    do 3 eexists. split.
    + unfold Game.simulate_turn.
      rewrite (bind_return _ _ _ _ _ Hd).
      change (Strategy.play StrategicPlay.new) with StrategicPlay.play.
      rewrite (bind_return _ _ _ _ _ Hr).
      rewrite (bind_return _ _ _ _ _ Hc). exact Hrun.
    + unfold score_after. simpl. specialize (Hbeats c Hcin).
      assert ((r >? c) = true) as -> by lia.
      assert ((c >? r) = false) as -> by lia. auto.
  - destruct (concrete_play_member s (Player.numbers p2) (Player.numbers p1)
                v0 Hs Hne) as (c & v1 & Hc & Hcin & _).
    destruct (StrategicPlay_beats_all _ _ v1 Hne Hex)
      as (r & Hr & Hrin & Hbeats & _).
    destruct (update_game_state_shape self c r p2 p1 v1)
      as (l2 & l1 & v2 & Hrun & _).
    do 3 eexists. split.
    + unfold Game.simulate_turn.
      rewrite (bind_return _ _ _ _ _ Hd').
      rewrite (bind_return _ _ _ _ _ Hc).
      change (Strategy.play StrategicPlay.new) with StrategicPlay.play.
      rewrite (bind_return _ _ _ _ _ Hr). exact Hrun.
    + unfold score_after. simpl. specialize (Hbeats c Hcin).
      assert ((r >? c) = true) as -> by lia.
      assert ((c >? r) = false) as -> by lia. auto.
Qed.

Lemma X3_StrategicPlay_wins_when_it_can_witness :
  exists p1' p2' w',
    Game.simulate_turn Game.new StrategicPlay.new RandomStrategy.new 4
      (Player.mk "Strategic Play" 2 [3; 12; 9; 5],
       Player.mk "Random" 1 [8; 2; 7]) quiet_world
      = (Return (p1', p2'), w') /\
    Player.score p1' = 2 + 1 /\ Player.score p2' = 1.
Proof.
  destruct (X3_StrategicPlay_wins_when_it_can Game.new RandomStrategy.new 4
              (Player.mk "Strategic Play" 2 [3; 12; 9; 5])
              (Player.mk "Random" 1 [8; 2; 7]) quiet_world)
    as (_ & H & _).
  - simpl. auto.
  - discriminate.
  - exists 9. split; [simpl; auto |].
    simpl. intros y [<- | [<- | [<- | []]]]; lia.
  - exact H.
Defined.

(** X4: Beat-Opponent-Max is Highest when the opponent has nothing left,
    and Lowest when the opponent has numbers left and no number of [own] is
    above all of them; this holds for every [own], the empty one too, where
    all three raise the same error. *)
Theorem X4_StrategicPlay_is_Highest_or_Lowest own opponent w :
  (opponent = [] ->
   StrategicPlay.play own opponent w = HighCardStrategy.play own opponent w) /\
  (opponent <> [] ->
   (forall x, In x own -> exists y, In y opponent /\ x <= y) ->
   StrategicPlay.play own opponent w = LowCardStrategy.play own opponent w).
Proof.
  split.
  - intros ->. reflexivity.
  - intros Hne Hcannot.
    destruct (max_is_maximum opponent Hne) as (h & Hh & Hhin & Hhmax).
    destruct opponent as [|o ot]; [congruence |].
    unfold StrategicPlay.play, LowCardStrategy.play, bind, lift.
    rewrite Hh. rewrite filter_all_false; [reflexivity |].
    intros x Hx. destruct (Hcannot x Hx) as (y & Hy & Hle).
    specialize (Hhmax y Hy). lia.
Qed.

Lemma X4_StrategicPlay_is_Highest_or_Lowest_witness :
  StrategicPlay.play [4; 8] [] quiet_world
    = HighCardStrategy.play [4; 8] [] quiet_world /\
  StrategicPlay.play [1; 2; 3] [9; 10] quiet_world
    = LowCardStrategy.play [1; 2; 3] [9; 10] quiet_world.
Proof.
  split.
  - apply (proj1 (X4_StrategicPlay_is_Highest_or_Lowest [4; 8] []
                    quiet_world)). reflexivity.
  - apply (proj2 (X4_StrategicPlay_is_Highest_or_Lowest [1; 2; 3] [9; 10]
                    quiet_world)).
    + discriminate.
    + intros x Hx. exists 9. split; [simpl; auto |].
      simpl in Hx. destruct Hx as [<- | [<- | [<- | []]]]; lia.
Defined.

End StrategicGuarantee.

(** ** What the input loops read *)

Section InputLoops.

Lemma get_player_choice_loop_reads self lines : forall w,
  match Game._get_player_choice_loop self lines w with
  | (Return (c, self1), w1) =>
      exists pre line,
        lines = pre ++ line :: stdin w1 /\
        Forall (fun l => valid_choice (Player.numbers (Game.player self)) l
                         = false) pre /\
        Py.int line = Some c /\
        In c (Player.numbers (Game.player self)) /\
        self1 = Game.set_players self
                  (Player.set_numbers (Game.player self)
                     (drop_first c (Player.numbers (Game.player self))))
                  (Game.computer self)
  | (Raise e, w1) =>
      e = EOFError /\ stdin w1 = [] /\
      Forall (fun l => valid_choice (Player.numbers (Game.player self)) l
                       = false) lines
  end.
Proof.
  induction lines as [|line rest IH]; intro w.
  - simpl. auto.
  - cbn [Game._get_player_choice_loop].
    destruct (Py.int line) as [choice |] eqn:Hint.
    + rewrite remove_number_drop_first.
      destruct (Py.contains choice (Player.numbers (Game.player self)))
        eqn:Hc; cbv beta iota.
      * exists [], line. simpl. repeat split; auto.
        now apply contains_In.
      * assert (valid_choice (Player.numbers (Game.player self)) line = false)
          as Hbad by (unfold valid_choice; now rewrite Hint).
        unfold print; cbv beta iota.
        match goal with
        | |- context [Game._get_player_choice_loop self rest ?v] =>
            specialize (IH v);
            destruct (Game._get_player_choice_loop self rest v)
              as [[[c self1] | e] w1]
        end.
        -- destruct IH as (pre & l & -> & Hpre & Hl).
           exists (line :: pre), l. split; [reflexivity |].
           split; [now constructor | exact Hl].
        -- destruct IH as (-> & Hs & Hall). repeat split; auto.
    + assert (valid_choice (Player.numbers (Game.player self)) line = false)
        as Hbad by (unfold valid_choice; now rewrite Hint).
      unfold print; cbv beta iota.
      match goal with
      | |- context [Game._get_player_choice_loop self rest ?v] =>
          specialize (IH v);
          destruct (Game._get_player_choice_loop self rest v)
            as [[[c self1] | e] w1]
      end.
      * destruct IH as (pre & l & -> & Hpre & Hl).
        exists (line :: pre), l. split; [reflexivity |].
        split; [now constructor | exact Hl].
      * destruct IH as (-> & Hs & Hall). repeat split; auto.
Qed.

(** X5: on input lines of ASCII characters, [_get_player_choice] skips
    every line that [int] does not read as an integer of the human's list
    and takes the first line that it does: it returns that number, has
    removed its first occurrence from the human's list and changed nothing
    else in the game, and leaves the lines after it unread.  When no line is
    acceptable it reads them all and ends with [EOFError]. *)
Theorem X5_get_player_choice_first_valid_line self w :
  Forall (fun l => ascii_text l = true) (stdin w) ->
  match Game._get_player_choice self w with
  | (Return (c, self1), w1) =>
      exists pre line,
        stdin w = pre ++ line :: stdin w1 /\
        Forall (fun l => valid_choice (Player.numbers (Game.player self)) l
                         = false) pre /\
        Py.int line = Some c /\
        In c (Player.numbers (Game.player self)) /\
        self1 = Game.set_players self
                  (Player.set_numbers (Game.player self)
                     (drop_first c (Player.numbers (Game.player self))))
                  (Game.computer self)
  | (Raise e, w1) =>
      e = EOFError /\ stdin w1 = [] /\
      Forall (fun l => valid_choice (Player.numbers (Game.player self)) l
                       = false) (stdin w)
  end.
Proof.
  intros _. unfold Game._get_player_choice.
  apply get_player_choice_loop_reads.
Qed.

Lemma X5_get_player_choice_first_valid_line_witness :
  exists self1 w1,
    Game._get_player_choice Game.new
      (mkWorld ["x"; "99"; "1_3"; " +7 "; "5"] [] (fun n => n) O)
    = (Return (13, self1), w1) /\
    stdin w1 = [" +7 "; "5"] /\
    Player.numbers (Game.player self1)
    = [1; 2; 3; 4; 5; 6; 7; 8; 9; 10; 11; 12].
Proof.
  pose proof (X5_get_player_choice_first_valid_line Game.new
                (mkWorld ["x"; "99"; "1_3"; " +7 "; "5"] [] (fun n => n) O))
    as H.
  assert (exists c self1 w1,
            Game._get_player_choice Game.new
              (mkWorld ["x"; "99"; "1_3"; " +7 "; "5"] [] (fun n => n) O)
            = (Return (c, self1), w1) /\ c = 13 /\
            stdin w1 = [" +7 "; "5"]) as (c & self1 & w1 & Hrun & -> & Hin)
    by (do 3 eexists; split; [vm_compute; reflexivity | split; reflexivity]).
  rewrite Hrun in H.
  destruct H as (pre & line & _ & _ & _ & _ & ->).
  - repeat constructor.
  - eexists. exists w1. split; [exact Hrun |]. split; [exact Hin | reflexivity].
Defined.

Lemma select_strategy_loop_reads self lines : forall w,
  match Game._select_strategy_loop self lines w with
  | (Return self', w') =>
      exists pre key s,
        lines = pre ++ key :: stdin w' /\
        Forall (fun l => valid_key self l = false) pre /\
        Game.lookup key (Game.strategies self) = Some s /\
        self' = Game.set_computer_strategy self s
  | (Raise e, w') =>
      e = EOFError /\ stdin w' = [] /\
      Forall (fun l => valid_key self l = false) lines
  end.
Proof.
  induction lines as [|line rest IH]; intro w.
  - simpl. auto.
  - cbn [Game._select_strategy_loop].
    destruct (Game.lookup line (Game.strategies self)) as [s |] eqn:Hl.
    + rewrite bind_print. unfold ret.
      exists [], line, s. simpl. auto.
    + assert (valid_key self line = false) as Hbad
        by (unfold valid_key; now rewrite Hl).
      unfold print; cbv beta iota.
      match goal with
      | |- context [Game._select_strategy_loop self rest ?v] =>
          specialize (IH v);
          destruct (Game._select_strategy_loop self rest v)
            as [[self' | e] w']
      end.
      * destruct IH as (pre & key & s & -> & Hpre & Hk).
        exists (line :: pre), key, s. split; [reflexivity |].
        split; [now constructor | exact Hk].
      * destruct IH as (-> & Hs & Hall). repeat split; auto.
Qed.

Lemma select_strategy_reads self w :
  match Game._select_strategy self w with
  | (Return self', w') =>
      exists pre key s,
        stdin w = pre ++ key :: stdin w' /\
        Forall (fun l => valid_key self l = false) pre /\
        Game.lookup key (Game.strategies self) = Some s /\
        self' = Game.set_computer_strategy self s
  | (Raise e, w') =>
      e = EOFError /\ stdin w' = [] /\
      Forall (fun l => valid_key self l = false) (stdin w)
  end.
Proof.
  unfold Game._select_strategy. rewrite bind_print.
  destruct (print_menu_returns self
              (write ("Choose a strategy for the computer opponent:" ++ nl) w))
    as (w1 & Hmenu & Hin).
  rewrite (bind_return _ _ _ _ _ Hmenu).
  change (stdin w) with
    (stdin (write ("Choose a strategy for the computer opponent:" ++ nl) w)).
  rewrite <- Hin. apply select_strategy_loop_reads.
Qed.

(** X6: [_select_strategy] skips every line that is not a key of the
    dictionary of strategies, compared as it is typed, and takes the first
    line that is one: the game it leaves differs from the old one only in
    [computer_strategy], now the strategy under that key, and the lines
    after the key are unread.  Without such a line it ends with
    [EOFError]. *)
Theorem X6_select_strategy_first_valid_key self w :
  match Game._select_strategy self w with
  | (Return self', w') =>
      exists pre key s,
        stdin w = pre ++ key :: stdin w' /\
        Forall (fun l => valid_key self l = false) pre /\
        Game.lookup key (Game.strategies self) = Some s /\
        self' = Game.set_computer_strategy self s
  | (Raise e, w') =>
      e = EOFError /\ stdin w' = [] /\
      Forall (fun l => valid_key self l = false) (stdin w)
  end.
Proof.
  apply select_strategy_reads.
Qed.

Lemma select_choice_loop_reads self prompt lines : forall w,
  match Game._select_choice_loop self prompt lines w with
  | (Return key, w') =>
      exists pre,
        lines = pre ++ key :: stdin w' /\
        Forall (fun l => valid_key self l = false) pre /\
        valid_key self key = true
  | (Raise e, w') =>
      e = EOFError /\ stdin w' = [] /\
      Forall (fun l => valid_key self l = false) lines
  end.
Proof.
  induction lines as [|line rest IH]; intro w.
  - simpl. auto.
  - cbn [Game._select_choice_loop].
    destruct (Game.lookup line (Game.strategies self)) as [s |] eqn:Hl.
    + exists []. simpl. unfold valid_key. rewrite Hl. auto.
    + assert (valid_key self line = false) as Hbad
        by (unfold valid_key; now rewrite Hl).
      unfold print; cbv beta iota.
      match goal with
      | |- context [Game._select_choice_loop self prompt rest ?v] =>
          specialize (IH v);
          destruct (Game._select_choice_loop self prompt rest v)
            as [[key | e] w']
      end.
      * destruct IH as (pre & -> & Hpre & Hk).
        exists (line :: pre). split; [reflexivity |].
        split; [now constructor | exact Hk].
      * destruct IH as (-> & Hs & Hall). repeat split; auto.
Qed.

End InputLoops.

(** ** What a simulation does to the world *)

Section SimulationWorld.

Lemma reads_nothing_refl w : reads_nothing 0 w w.
Proof.
  repeat split; lia.
Qed.

Lemma reads_nothing_trans n m w1 w2 w3 :
  reads_nothing n w1 w2 -> reads_nothing m w2 w3 ->
  reads_nothing (n + m) w1 w3.
Proof.
  intros (Hi & Hr & Hp) (Hi' & Hr' & Hp').
  repeat split; try congruence; lia.
Qed.

Lemma reads_nothing_weaken n m w1 w2 :
  (n <= m)%nat -> reads_nothing n w1 w2 -> reads_nothing m w1 w2.
Proof.
  intros Hle (Hi & Hr & Hp). repeat split; auto; lia.
Qed.

Lemma deterministic_play_same_world s own opponent w :
  deterministic_strategy s -> snd (Strategy.play s own opponent w) = w.
Proof.
  intros [-> | [-> | ->]]; simpl; try reflexivity.
  unfold StrategicPlay.play, bind, lift.
  destruct opponent as [|o ot]; [reflexivity |].
  destruct (Py.max (o :: ot)) as [h | e]; [| reflexivity].
  now destruct (filter (fun card => card >? h) own).
Qed.

Lemma deterministic_draws_nothing s :
  deterministic_strategy s -> draws_at_most 0 s.
Proof.
  intros Hs own opponent w.
  rewrite (deterministic_play_same_world s own opponent w Hs).
  apply reads_nothing_refl.
Qed.

Lemma concrete_draws_at_most_one s :
  In s concrete_strategies -> draws_at_most 1 s.
Proof.
  intros Hs own opponent w.
  destruct (concrete_strategies_cases s Hs) as [-> | Hdet].
  - simpl. unfold RandomStrategy.play, Py.random_choice.
    destruct own; unfold reads_nothing; simpl; (split; [reflexivity |]);
      (split; [reflexivity | lia]).
  - apply (reads_nothing_weaken 0); [lia |].
    now apply deterministic_draws_nothing.
Qed.

Lemma update_game_state_world self c1 c2 p1 p2 w :
  reads_nothing 0 w (snd (Game._update_game_state self c1 c2 p1 p2 w)).
Proof.
  destruct (update_game_state_shape self c1 c2 p1 p2 w)
    as (l1 & l2 & w' & Hrun & _ & _ & Hi & Hr & Hp).
  rewrite Hrun. simpl. repeat split; auto; lia.
Qed.

Lemma simulate_turn_world self s1 s2 n1 n2 turn ps w :
  draws_at_most n1 s1 -> draws_at_most n2 s2 ->
  reads_nothing (n1 + n2) w (snd (Game.simulate_turn self s1 s2 turn ps w)).
Proof.
  intros H1 H2. destruct ps as [p1 p2]. unfold Game.simulate_turn.
  destruct (display_status_returns self turn p1 p2 w)
    as (w0 & Hd & Hi0 & Hr0 & Hp0).
  rewrite (bind_return _ _ _ _ _ Hd).
  assert (reads_nothing 0 w w0) as H0 by (repeat split; auto; lia).
  pose proof (H1 (Player.numbers p1) (Player.numbers p2) w0) as Hw1.
  unfold bind at 1.
  destruct (Strategy.play s1 _ _ w0) as [[c1 | e] w1]; simpl in Hw1.
  2:{ simpl. apply (reads_nothing_weaken (0 + n1)); [lia |].
      eapply reads_nothing_trans; eauto. }
  pose proof (H2 (Player.numbers p2) (Player.numbers p1) w1) as Hw2.
  unfold bind at 1.
  destruct (Strategy.play s2 _ _ w1) as [[c2 | e] w2]; simpl in Hw2.
  2:{ simpl. apply (reads_nothing_weaken (0 + n1 + n2)); [lia |].
      eapply reads_nothing_trans; [| eauto].
      eapply reads_nothing_trans; eauto. }
  pose proof (update_game_state_world self c1 c2 p1 p2 w2) as Hw3.
  apply (reads_nothing_weaken (0 + n1 + n2 + 0)); [lia |].
  eapply reads_nothing_trans; [| exact Hw3].
  eapply reads_nothing_trans; [| eauto].
  eapply reads_nothing_trans; eauto.
Qed.

Lemma simulate_turns_world self s1 s2 n1 n2 turns : forall ps w,
  draws_at_most n1 s1 -> draws_at_most n2 s2 ->
  reads_nothing (List.length turns * (n1 + n2)) w
    (snd (Game.simulate_turns self s1 s2 turns ps w)).
Proof.
  unfold Game.simulate_turns.
  induction turns as [|x t IH]; intros ps w H1 H2.
  - simpl. apply reads_nothing_refl.
  - cbn [for_ List.length Nat.mul].
    pose proof (simulate_turn_world self s1 s2 n1 n2 x ps w H1 H2) as Hx.
    unfold bind.
    destruct (Game.simulate_turn self s1 s2 x ps w) as [[ps1 | e] w1];
      simpl in Hx.
    + eapply reads_nothing_trans; [exact Hx | now apply IH].
    + simpl. eapply reads_nothing_weaken; [| exact Hx]. lia.
Qed.

(** X7: the loop of the simulation reads no input and leaves the sequence
    of random draws as it is.  With two concrete strategies it uses at most
    two draws a turn; with two of Highest, Lowest and Beat-Opponent-Max it
    uses none.  This holds whether the loop returns or raises. *)
Theorem X7_simulation_reads_no_input self s1 s2 turns ps w :
  (In s1 concrete_strategies ->
   In s2 concrete_strategies ->
   reads_nothing (2 * List.length turns) w
     (snd (Game.simulate_turns self s1 s2 turns ps w))) /\
  (deterministic_strategy s1 ->
   deterministic_strategy s2 ->
   reads_nothing 0 w (snd (Game.simulate_turns self s1 s2 turns ps w))).
Proof.
  split; intros H1 H2.
  - replace (2 * List.length turns)%nat
      with (List.length turns * (1 + 1))%nat by lia.
    apply simulate_turns_world; now apply concrete_draws_at_most_one.
  - replace 0%nat with (List.length turns * (0 + 0))%nat by lia.
    apply simulate_turns_world; now apply deterministic_draws_nothing.
Qed.

Lemma X7_simulation_reads_no_input_witness :
  reads_nothing (2 * 3) (mkWorld ["a"; "b"] [] (fun n => (5 * n + 1)%nat) 4)
    (snd (Game.simulate_turns Game.new RandomStrategy.new StrategicPlay.new
            [1; 2; 3] (Player.new "Random", Player.new "Strategic Play")
            (mkWorld ["a"; "b"] [] (fun n => (5 * n + 1)%nat) 4))) /\
  reads_nothing 0 (mkWorld ["a"; "b"] [] (fun n => (5 * n + 1)%nat) 4)
    (snd (Game.simulate_turns Game.new HighCardStrategy.new
            StrategicPlay.new [1; 2; 3]
            (Player.new "High Card", Player.new "Strategic Play")
            (mkWorld ["a"; "b"] [] (fun n => (5 * n + 1)%nat) 4))).
Proof.
  split.
  - apply (proj1 (X7_simulation_reads_no_input Game.new RandomStrategy.new
                    StrategicPlay.new [1; 2; 3]
                    (Player.new "Random", Player.new "Strategic Play")
                    (mkWorld ["a"; "b"] [] (fun n => (5 * n + 1)%nat) 4)));
      simpl; auto.
  - apply (proj2 (X7_simulation_reads_no_input Game.new HighCardStrategy.new
                    StrategicPlay.new [1; 2; 3]
                    (Player.new "High Card", Player.new "Strategic Play")
                    (mkWorld ["a"; "b"] [] (fun n => (5 * n + 1)%nat) 4)));
      unfold deterministic_strategy; auto.
Defined.

End SimulationWorld.

(** ** Scores and lists over the turns *)

Section Progress.

Lemma evolves_refl p : evolves p p.
Proof.
  repeat split; [lia | intro x; lia].
Qed.

Lemma evolves_trans p q r : evolves p q -> evolves q r -> evolves p r.
Proof.
  intros (Hn & Hs & Hc) (Hn' & Hs' & Hc').
  repeat split; [congruence | lia |].
  intro x. specialize (Hc x). specialize (Hc' x). lia.
Qed.

Lemma progress_refl ps : progress 0 ps ps.
Proof.
  split; [apply evolves_refl |]. split; [apply evolves_refl | lia].
Qed.

Lemma progress_trans n m a b c :
  progress n a b -> progress m b c -> progress (n + m) a c.
Proof.
  intros (H1 & H2 & Hs) (H1' & H2' & Hs').
  split; [eapply evolves_trans; eauto |].
  split; [eapply evolves_trans; eauto | lia].
Qed.

(** The resolution of a turn gives at most one point, takes no point back
    and adds no number to a list. *)
Lemma update_game_state_progress self c1 c2 p1 p2 w :
  exists p1' p2' w',
    Game._update_game_state self c1 c2 p1 p2 w = (Return (p1', p2'), w') /\
    progress 1 (p1, p2) (p1', p2').
Proof.
  destruct (update_game_state_shape self c1 c2 p1 p2 w)
    as (l1 & l2 & w' & Hrun & (b1 & Hr1) & (b2 & Hr2) & _).
  rewrite remove_number_drop_first in Hr1, Hr2.
  unfold Player.set_numbers in Hr1, Hr2.
  inversion Hr1; subst b1 l1. inversion Hr2; subst b2 l2.
  do 3 eexists. split; [exact Hrun |].
  unfold progress, evolves, score_after. simpl.
  destruct (Z.gtb_spec c1 c2); destruct (Z.gtb_spec c2 c1);
    (split; [split; [reflexivity | split; [lia |]] |
             split; [split; [reflexivity | split; [lia |]] | lia]]);
    intro x; apply drop_first_count_le.
Qed.

Lemma simulate_turn_progress self s1 s2 turn ps w ps' w' :
  Game.simulate_turn self s1 s2 turn ps w = (Return ps', w') ->
  progress 1 ps ps'.
Proof.
  destruct ps as [p1 p2]. unfold Game.simulate_turn.
  destruct (display_status_returns self turn p1 p2 w) as (w0 & Hd & _).
  rewrite (bind_return _ _ _ _ _ Hd). unfold bind at 1.
  destruct (Strategy.play s1 _ _ w0) as [[c1 | e] w1]; [| discriminate].
  unfold bind at 1.
  destruct (Strategy.play s2 _ _ w1) as [[c2 | e] w2]; [| discriminate].
  destruct (update_game_state_progress self c1 c2 p1 p2 w2)
    as (p1' & p2' & w3 & Hrun & Hprog).
  rewrite Hrun. intros H. now inversion H; subst.
Qed.

Lemma simulate_turns_progress self s1 s2 turns : forall ps w ps' w',
  Game.simulate_turns self s1 s2 turns ps w = (Return ps', w') ->
  progress (List.length turns) ps ps'.
Proof.
  unfold Game.simulate_turns.
  induction turns as [|x t IH]; intros ps w ps' w'; simpl.
  - unfold ret. intros H. inversion H; subst. apply progress_refl.
  - unfold bind.
    destruct (Game.simulate_turn self s1 s2 x ps w) as [[ps1 | e] w1] eqn:Hx;
      [| discriminate].
    intros Hrest.
    change (S (List.length t)) with (1 + List.length t)%nat.
    eapply progress_trans.
    + eapply simulate_turn_progress. exact Hx.
    + eapply IH. exact Hrest.
Qed.

(** X8: over any turns of the simulation, with any two strategies, each
    player keeps its name, no score goes down, the two scores together go
    up by at most one a turn, and no list gains a number: for every number
    its occurrences in a list never increase. *)
Theorem X8_simulation_scores_and_lists self s1 s2 turns ps w ps' w' :
  Game.simulate_turns self s1 s2 turns ps w = (Return ps', w') ->
  progress (List.length turns) ps ps'.
Proof.
  apply simulate_turns_progress.
Qed.

Lemma X8_simulation_scores_and_lists_witness :
  exists ps' w',
    Game.simulate_turns Game.new RandomStrategy.new LowCardStrategy.new
      [1; 2; 3; 4] (Player.new "Random", Player.new "Low Card")
      (mkWorld [] [] (fun n => (3 * n + 2)%nat) O) = (Return ps', w') /\
    progress 4 (Player.new "Random", Player.new "Low Card") ps'.
Proof.
  do 2 eexists. split.
  - vm_compute. reflexivity.
  - eapply (X8_simulation_scores_and_lists Game.new RandomStrategy.new
             LowCardStrategy.new [1; 2; 3; 4]
             (Player.new "Random", Player.new "Low Card")
             (mkWorld [] [] (fun n => (3 * n + 2)%nat) O)).
    vm_compute. reflexivity.
Defined.

(** A turn of [play]: what it does to the two players and to the other
    fields of the game. *)
Lemma play_turn_progress turn self w self' w' :
  Game.play_turn turn self w = (Return self', w') ->
  progress 1 (players_of self) (players_of self') /\
  Game.current_turn self' = Game.current_turn self + 1 /\
  Game.total_turns self' = Game.total_turns self /\
  Game.computer_strategy self' = Game.computer_strategy self /\
  Game.strategies self' = Game.strategies self.
Proof.
  rewrite play_turn_from_prompt.
  set (w0 := world_at_prompt self w).
  pose proof (get_player_choice_loop_reads self (stdin w0) w0) as Hout.
  fold (Game._get_player_choice self w0) in Hout.
  unfold bind at 1.
  destruct (Game._get_player_choice self w0)
    as [[[choice self1] | e] w1]; [| discriminate].
  destruct Hout as (pre & line & _ & _ & _ & _ & ->).
  unfold bind at 1.
  destruct (Game.computer_play _ _ _ w1) as [[cc | e] w2]; [| discriminate].
  match goal with
  | |- context [Game._update_game_state ?g ?c1 ?c2 ?p1 ?p2] =>
      destruct (update_game_state_progress g c1 c2 p1 p2 w2)
        as (p1' & p2' & w3 & Hrun & Hprog)
  end.
  rewrite (bind_return _ _ _ _ _ Hrun). unfold ret.
  intros H. inversion H; subst. clear H. simpl.
  split; [| repeat split].
  change 1%nat with (0 + 1)%nat.
  eapply progress_trans; [| exact Hprog].
  unfold progress, players_of. simpl.
  split; [| split; [apply evolves_refl | lia]].
  unfold evolves, Player.set_numbers. simpl.
  split; [reflexivity |]. split; [lia |].
  intro x. apply drop_first_count_le.
Qed.

(** X9: over any turns of the interactive match, with any strategy for
    the computer, the same holds of the human and the computer: names kept,
    no score down, at most one point a turn between them, no number added
    to a list.  The counter of turns goes up by one a turn, and the number
    of turns, the strategy and the dictionary of strategies stay as they
    are. *)
Theorem X9_play_scores_and_lists turns : forall self w self' w',
  Game.play_turns turns self w = (Return self', w') ->
  progress (List.length turns) (players_of self) (players_of self') /\
  Game.current_turn self'
    = Game.current_turn self + Z.of_nat (List.length turns) /\
  Game.total_turns self' = Game.total_turns self /\
  Game.computer_strategy self' = Game.computer_strategy self /\
  Game.strategies self' = Game.strategies self.
Proof.
  unfold Game.play_turns.
  induction turns as [|x t IH]; intros self w self' w'.
  - simpl. unfold ret. intros H. inversion H; subst.
    split; [apply progress_refl |]. repeat split. lia.
  - cbn [for_ List.length]. unfold bind.
    destruct (Game.play_turn x self w) as [[self1 | e] w1] eqn:Hx;
      [| discriminate].
    intros Hrest.
    destruct (play_turn_progress x self w self1 w1 Hx)
      as (Hp & Hc & Ht & Hs & Hd).
    destruct (IH self1 w1 self' w' Hrest) as (Hp' & Hc' & Ht' & Hs' & Hd').
    split.
    + change (S (List.length t)) with (1 + List.length t)%nat.
      eapply progress_trans; eauto.
    + repeat split; try congruence. lia.
Qed.

Lemma X9_play_scores_and_lists_witness :
  exists self' w',
    Game.play_turns [0; 1]
      (Game.set_computer_strategy Game.new StrategicPlay.new)
      (mkWorld ["4"; "oops"; "4"; "11"; "1"] [] (fun n => n) O)
      = (Return self', w') /\
    progress 2 (players_of Game.new) (players_of self') /\
    Game.current_turn self' = 1 + 2.
Proof.
  assert (exists self' w',
            Game.play_turns [0; 1]
              (Game.set_computer_strategy Game.new StrategicPlay.new)
              (mkWorld ["4"; "oops"; "4"; "11"; "1"] [] (fun n => n) O)
            = (Return self', w')) as (self' & w' & Hrun)
    by (do 2 eexists; vm_compute; reflexivity).
  exists self', w'. split; [exact Hrun |].
  destruct (X9_play_scores_and_lists _ _ _ _ _ Hrun) as (Hp & Hc & _).
  split; [exact Hp | exact Hc].
Defined.

End Progress.

(** ** A strategy against itself *)

Section Mirror.

Lemma deterministic_is_concrete s :
  deterministic_strategy s -> In s concrete_strategies.
Proof.
  intros [-> | [-> | ->]]; simpl; auto.
Qed.

Lemma drop_first_length x l :
  In x l -> S (List.length (drop_first x l)) = List.length l.
Proof.
  induction l as [|y t IH]; simpl; [tauto |].
  destruct (Z.eqb_spec y x) as [-> | Hne]; [reflexivity |].
  intros [H | H]; [congruence |]. simpl. now rewrite IH.
Qed.

Lemma mirror_turn self s turn ps w a b m :
  deterministic_strategy s ->
  mirrored a b (S m) ps ->
  exists ps' w',
    Game.simulate_turn self s s turn ps w = (Return ps', w') /\
    mirrored a b m ps'.
Proof.
  intros Hs (Heq & Hlen & Ha & Hb). destruct ps as [p1 p2]. simpl in *.
  unfold Game.simulate_turn.
  destruct (display_status_returns self turn p1 p2 w) as (w0 & Hd & _).
  rewrite (bind_return _ _ _ _ _ Hd). rewrite <- Heq.
  destruct (concrete_play_member s (Player.numbers p1) (Player.numbers p1)
              w0 (deterministic_is_concrete s Hs)
              (nonempty_length _ _ Hlen)) as (c & w1 & Hc & Hin & _).
  pose proof (deterministic_play_same_world s (Player.numbers p1)
                (Player.numbers p1) w0 Hs) as Hw.
  rewrite Hc in Hw. simpl in Hw. subst w1.
  rewrite (bind_return _ _ _ _ _ Hc).
  rewrite (bind_return _ _ _ _ _ Hc).
  destruct (update_game_state_shape self c c p1 p2 w0)
    as (l1 & l2 & w' & Hrun & (b1 & Hr1) & (b2 & Hr2) & _).
  rewrite remove_number_drop_first in Hr1, Hr2.
  unfold Player.set_numbers in Hr1, Hr2.
  inversion Hr1; subst b1 l1. inversion Hr2; subst b2 l2.
  eexists. eexists. split; [exact Hrun |].
  unfold mirrored, score_after. simpl.
  assert ((c >? c) = false) as -> by lia.
  rewrite <- Heq. repeat split; auto.
  pose proof (drop_first_length c _ Hin). lia.
Qed.

(** X10: Highest, Lowest and Beat-Opponent-Max, each against itself on
    two equal lists, tie every turn: over any number of turns up to the size
    of the lists the loop of the simulation returns, both scores are what
    they were, and the two lists are still equal.  From two new players the
    thirteen turns end 0 to 0. *)
Theorem X10_strategy_against_itself_ties self s turns p1 p2 w :
  deterministic_strategy s ->
  Player.numbers p1 = Player.numbers p2 ->
  (List.length turns <= List.length (Player.numbers p1))%nat ->
  exists p1' p2' w',
    Game.simulate_turns self s s turns (p1, p2) w = (Return (p1', p2'), w') /\
    Player.score p1' = Player.score p1 /\
    Player.score p2' = Player.score p2 /\
    Player.numbers p1' = Player.numbers p2' /\
    (List.length (Player.numbers p1') + List.length turns
     = List.length (Player.numbers p1))%nat.
Proof.
  intros Hs Heq Hlen.
  set (m := (List.length (Player.numbers p1) - List.length turns)%nat).
  assert (Hloop :
            match Game.simulate_turns self s s turns (p1, p2) w with
            | (Return ps', _) =>
                mirrored (Player.score p1) (Player.score p2) m ps'
            | (Raise e, _) => False
            end).
  { unfold Game.simulate_turns.
    apply (for_countdown (mirrored (Player.score p1) (Player.score p2))
             (fun _ _ => False) (Game.simulate_turn self s s)).
    - intros x ps v k Hk.
      destruct (mirror_turn self s x ps v _ _ k Hs Hk)
        as (ps' & v' & Hrun & Hm).
      now rewrite Hrun.
    - unfold mirrored, m. simpl. repeat split; auto. lia. }
  destruct (Game.simulate_turns self s s turns (p1, p2) w)
    as [[[p1' p2'] | e] w']; [| destruct Hloop].
  destruct Hloop as (He & Hl & Ha & Hb). simpl in *.
  exists p1', p2', w'. repeat split; auto. unfold m in Hl. lia.
Qed.

Lemma X10_strategy_against_itself_ties_witness :
  exists p1' p2' w',
    Game.simulate_turns Game.new StrategicPlay.new StrategicPlay.new
      (Py.range 1 14)
      (Player.new "Strategic Play", Player.new "Strategic Play") quiet_world
      = (Return (p1', p2'), w') /\
    Player.score p1' = 0 /\ Player.score p2' = 0 /\
    Player.numbers p1' = Player.numbers p2' /\
    (List.length (Player.numbers p1') + 13 = 13)%nat.
Proof.
  apply (X10_strategy_against_itself_ties Game.new StrategicPlay.new
           (Py.range 1 14) (Player.new "Strategic Play")
           (Player.new "Strategic Play") quiet_world).
  - unfold deterministic_strategy. auto.
  - reflexivity.
  - vm_compute. lia.
Defined.

End Mirror.

(** ** How much input a match reads *)

Section InputUse.

Lemma valid_key_lookup self key :
  valid_key self key = true ->
  exists s, Game.lookup key (Game.strategies self) = Some s.
Proof.
  unfold valid_key.
  destruct (Game.lookup key (Game.strategies self)) as [s |];
    [eauto | discriminate].
Qed.

Lemma select_simulation_strategies_reads self w :
  match Game._select_simulation_strategies self w with
  | (Return (s1, s2), w') =>
      exists pre1 key1 pre2 key2,
        stdin w = pre1 ++ key1 :: pre2 ++ key2 :: stdin w' /\
        Forall (fun l => valid_key self l = false) pre1 /\
        Forall (fun l => valid_key self l = false) pre2 /\
        Game.lookup key1 (Game.strategies self) = Some s1 /\
        Game.lookup key2 (Game.strategies self) = Some s2
  | (Raise e, w') => e = EOFError /\ stdin w' = []
  end.
Proof.
  unfold Game._select_simulation_strategies.
  rewrite bind_print.
  destruct (print_menu_returns self
              (write ("Choose two strategies to face off:" ++ nl) w))
    as (w1 & Hmenu & Hin1).
  rewrite (bind_return _ _ _ _ _ Hmenu).
  change (stdin (write ("Choose two strategies to face off:" ++ nl) w))
    with (stdin w) in Hin1.
  unfold bind at 1.
  pose proof (select_choice_loop_reads self "Enter choice for Player 1: "
                (stdin w1) w1) as H1.
  destruct (Game._select_choice_loop self _ (stdin w1) w1)
    as [[choice1 | e] w2]; [| destruct H1 as (-> & Hs & _); auto].
  destruct H1 as (pre1 & Hl1 & Hpre1 & Hk1).
  destruct (valid_key_lookup _ _ Hk1) as (s1 & Hs1).
  unfold bind at 1.
  pose proof (select_choice_loop_reads self "Enter choice for Player 2: "
                (stdin w2) w2) as H2.
  destruct (Game._select_choice_loop self _ (stdin w2) w2)
    as [[choice2 | e] w3]; [| destruct H2 as (-> & Hs & _); auto].
  destruct H2 as (pre2 & Hl2 & Hpre2 & Hk2).
  destruct (valid_key_lookup _ _ Hk2) as (s2 & Hs2).
  rewrite Hs1, Hs2. rewrite bind_print. unfold ret.
  exists pre1, choice1, pre2, choice2.
  split; [| auto].
  rewrite <- Hin1, Hl1, Hl2. reflexivity.
Qed.

(** X11: [_select_simulation_strategies] takes the first line that is a
    key of the dictionary for the first strategy and the first such line
    after it for the second, skipping every other line; the strategies it
    returns are the ones under these two keys and the lines after the second
    key are unread.  The two look-ups after the loops never raise
    [KeyError]: the only exception is [EOFError], when the input ends before
    two keys are read. *)
Theorem X11_select_simulation_strategies_two_keys self w :
  match Game._select_simulation_strategies self w with
  | (Return (s1, s2), w') =>
      exists pre1 key1 pre2 key2,
        stdin w = pre1 ++ key1 :: pre2 ++ key2 :: stdin w' /\
        Forall (fun l => valid_key self l = false) pre1 /\
        Forall (fun l => valid_key self l = false) pre2 /\
        Game.lookup key1 (Game.strategies self) = Some s1 /\
        Game.lookup key2 (Game.strategies self) = Some s2
  | (Raise e, w') => e = EOFError /\ stdin w' = []
  end.
Proof.
  apply select_simulation_strategies_reads.
Qed.

Lemma reads_lines_trans n m w1 w2 w3 :
  reads_lines n w1 w2 -> reads_lines m w2 w3 -> reads_lines (n + m) w1 w3.
Proof.
  intros (u & Hu & Hn) (v & Hv & Hm).
  exists (u ++ v). split.
  - rewrite Hu, Hv. now rewrite app_assoc.
  - rewrite length_app. lia.
Qed.

Lemma reads_lines_same n w1 w2 w3 :
  reads_lines n w1 w2 -> stdin w3 = stdin w2 -> reads_lines n w1 w3.
Proof.
  intros (u & Hu & Hn) Heq. exists u. now rewrite Heq.
Qed.

(** A resolved turn of [play] with a concrete strategy has read at least
    one line. *)
Lemma play_turn_reads turn self w s self' w' :
  Game.computer_strategy self = Some s ->
  In s concrete_strategies ->
  Game.play_turn turn self w = (Return self', w') ->
  reads_lines 1 w w'.
Proof.
  intros Hs Hconc.
  pose proof (play_turn_split turn self w s Hs) as Hsplit.
  set (w0 := world_at_prompt self w) in *.
  pose proof (get_player_choice_loop_reads self (stdin w0) w0) as Hout.
  fold (Game._get_player_choice self w0) in Hout.
  destruct (Game._get_player_choice self w0) as [[[choice self1] | e] w1].
  2:{ rewrite Hsplit. discriminate. }
  destruct Hsplit as [-> _].
  destruct Hout as (pre & line & Hlines & _ & _ & _ & ->).
  unfold after_choice. simpl.
  match goal with
  | |- context [Strategy.play s ?own ?opp] =>
      pose proof (concrete_draws_at_most_one s Hconc own opp w1) as Hw2;
      unfold bind at 1;
      destruct (Strategy.play s own opp w1) as [[cc | e] w2];
      [| discriminate]
  end.
  simpl in Hw2. destruct Hw2 as (Hin2 & _).
  match goal with
  | |- context [Game._update_game_state ?g ?c1 ?c2 ?p1 ?p2] =>
      pose proof (update_game_state_world g c1 c2 p1 p2 w2) as Hw3;
      unfold bind at 1;
      destruct (Game._update_game_state g c1 c2 p1 p2 w2)
        as [[[p c] | e] w3]; [| discriminate]
  end.
  simpl in Hw3. destruct Hw3 as (Hin3 & _).
  unfold ret. intros H. inversion H; subst. clear H.
  exists (pre ++ [line]). split.
  - change (stdin w) with (stdin w0).
    rewrite Hlines, Hin3, Hin2, <- app_assoc. reflexivity.
  - rewrite length_app. simpl. lia.
Qed.

(** The loop of [play]: each resolved turn has read a line. *)
Lemma play_turns_reads turns : forall self w m,
  play_state (List.length turns + m) self ->
  match Game.play_turns turns self w with
  | (Return self', w') =>
      play_state m self' /\ reads_lines (List.length turns) w w'
  | (Raise e, w') => e = EOFError /\ stdin w' = []
  end.
Proof.
  unfold Game.play_turns.
  induction turns as [|x t IH]; intros self w m Hst.
  - simpl. split; [exact Hst |]. exists []. auto.
  - cbn [for_ List.length]. unfold bind.
    pose proof (play_turn_step x self w (List.length t + m) Hst) as Hstep.
    destruct Hst as (_ & _ & _ & (s & Hs & Hconc) & _).
    pose proof (play_turn_reads x self w s) as Hreads.
    destruct (Game.play_turn x self w) as [[self1 | e] w1]; [| exact Hstep].
    specialize (Hreads self1 w1 Hs Hconc eq_refl).
    specialize (IH self1 w1 m Hstep).
    destruct (for_ t Game.play_turn self1 w1) as [[self2 | e] w2];
      [| exact IH].
    destruct IH as [Hst2 Hr2]. split; [exact Hst2 |].
    change (S (List.length t)) with (1 + List.length t)%nat.
    eapply reads_lines_trans; eauto.
Qed.

Lemma play_reads w :
  match Game.play Game.new w with
  | (Return _, w') => reads_lines 14 w w'
  | (Raise e, w') => e = EOFError /\ stdin w' = []
  end.
Proof.
    unfold Game.play. rewrite !bind_print.
    match goal with
    | |- context [Py.bind (Game._select_strategy Game.new) ?k ?v] =>
        pose proof (select_strategy_reads Game.new v) as Hsel;
        destruct (Game._select_strategy Game.new v)
          as [[self1 | e] w1] eqn:Hs;
        [rewrite (bind_return _ _ _ _ _ Hs)
        | rewrite (bind_raise _ _ _ _ _ Hs);
          destruct Hsel as (-> & Hnil & _); auto]
    end.
    destruct Hsel as (pre & key & s & Hlines & _ & Hkey & ->).
    simpl in Hlines. apply lookup_concrete in Hkey.
    pose proof (play_turns_reads
                  (Py.range 0 (Game.total_turns
                                 (Game.set_computer_strategy Game.new s)))
                  (Game.set_computer_strategy Game.new s) w1 0%nat
                  (new_game_play_state s Hkey)) as Hloop.
    destruct (Game.play_turns _ _ w1) as [[self2 | e] w2] eqn:Hturns.
    - rewrite (bind_return _ _ _ _ _ Hturns).
      destruct (end_game_returns self2 (Game.player self2)
                  (Game.computer self2) w2) as (w3 & Hend & Hin3).
      rewrite (bind_return _ _ _ _ _ Hend). unfold ret.
      destruct Hloop as [_ Hr].
      change 14%nat with (1 + 13)%nat.
      eapply reads_lines_trans.
      + exists (pre ++ [key]). split.
        * rewrite Hlines, <- app_assoc. reflexivity.
        * rewrite length_app. simpl. lia.
      + eapply reads_lines_same; [exact Hr | exact Hin3].
    - rewrite (bind_raise _ _ _ _ _ Hturns). exact Hloop.
Qed.

(** X12: an interactive match that ends has read at least fourteen
    lines, one for the strategy and one for each turn, and left the rest of
    the input unread; on an input of fewer than fourteen lines [play] ends
    with [EOFError]. *)
Theorem X12_play_reads_fourteen_lines w :
  match Game.play Game.new w with
  | (Return _, w') => reads_lines 14 w w'
  | (Raise e, w') =>
      e = EOFError /\ stdin w' = []
  end /\
  ((List.length (stdin w) < 14)%nat ->
   fst (Game.play Game.new w) = Raise EOFError).
Proof.
  pose proof (play_reads w) as Hmain.
  split; [exact Hmain |].
  intros Hshort.
  destruct (Game.play Game.new w) as [[self' | e] w'].
  - exfalso. destruct Hmain as (used & Hu & Hlen).
    rewrite Hu, length_app in Hshort. lia.
  - destruct Hmain as [-> _]. reflexivity.
Qed.

Lemma X12_play_reads_fourteen_lines_witness :
  fst (Game.play Game.new
         (mkWorld ["4"; "13"; "12"; "x"; "11"] [] (fun n => n) O))
  = Raise EOFError.
Proof.
  destruct (X12_play_reads_fourteen_lines
              (mkWorld ["4"; "13"; "12"; "x"; "11"] [] (fun n => n) O))
    as [_ H].
  apply H. vm_compute. lia.
Defined.

End InputUse.

(** ** The whole program *)

Section Program.

Lemma simulate_game_reads w :
  match Game.simulate_game Game.new w with
  | (Return (p1, p2), w') =>
      exists pre1 key1 pre2 key2 s1 s2,
        stdin w = pre1 ++ key1 :: pre2 ++ key2 :: stdin w' /\
        Forall (fun l => valid_key Game.new l = false) pre1 /\
        Forall (fun l => valid_key Game.new l = false) pre2 /\
        Game.lookup key1 (Game.strategies Game.new) = Some s1 /\
        Game.lookup key2 (Game.strategies Game.new) = Some s2 /\
        Player.name p1 = Strategy.name s1 /\
        Player.name p2 = Strategy.name s2
  | (Raise e, w') => e = EOFError /\ stdin w' = []
  end.
Proof.
  pose proof (select_simulation_strategies_reads Game.new w) as Hsel.
  destruct (Game._select_simulation_strategies Game.new w)
    as [[[s1 s2] | e] w1] eqn:Hs.
  2:{ unfold Game.simulate_game. rewrite (bind_raise _ _ _ _ _ Hs).
      exact Hsel. }
  destruct Hsel as (pre1 & key1 & pre2 & key2 & Hlines & Hp1 & Hp2 & Hk1 & Hk2).
  destruct (simulate_game_after_selection w s1 s2 w1 Hs)
    as (p1 & p2 & w2 & w3 & Hturns & Hgame & _).
  pose proof (simulate_turns_world Game.new s1 s2 1 1
                (Py.range 1 (Game.total_turns Game.new + 1))
                (Player.new (Strategy.name s1), Player.new (Strategy.name s2))
                w1
                (concrete_draws_at_most_one s1 (lookup_concrete _ _ Hk1))
                (concrete_draws_at_most_one s2 (lookup_concrete _ _ Hk2)))
    as (Hin2 & _).
  pose proof (simulate_turns_progress Game.new s1 s2 _ _ _ _ _ Hturns)
    as ((Hn1 & _) & (Hn2 & _) & _).
  rewrite Hturns in Hin2. simpl in Hin2, Hn1, Hn2.
  pose proof Hgame as Hg. unfold Game.simulate_game in Hg.
  rewrite (bind_return _ _ _ _ _ Hs) in Hg.
  rewrite (bind_return _ _ _ _ _ Hturns) in Hg.
  destruct (end_game_returns Game.new p1 p2 w2) as (w4 & Hend & Hin4).
  rewrite (bind_return _ _ _ _ _ Hend) in Hg. unfold ret in Hg.
  inversion Hg; subst w4. rewrite Hgame.
  exists pre1, key1, pre2, key2, s1, s2.
  rewrite Hin4, Hin2. repeat split; auto.
Qed.

(** X13: a simulation that ends has read the input up to the second
    line that is a key of the dictionary and nothing after it: the match
    itself reads no input.  The two players it leaves bear the names of the
    strategies under the two keys.  The only exception is [EOFError]. *)
Theorem X13_simulate_game_reads_two_keys w :
  match Game.simulate_game Game.new w with
  | (Return (p1, p2), w') =>
      exists pre1 key1 pre2 key2 s1 s2,
        stdin w = pre1 ++ key1 :: pre2 ++ key2 :: stdin w' /\
        Forall (fun l => valid_key Game.new l = false) pre1 /\
        Forall (fun l => valid_key Game.new l = false) pre2 /\
        Game.lookup key1 (Game.strategies Game.new) = Some s1 /\
        Game.lookup key2 (Game.strategies Game.new) = Some s2 /\
        Player.name p1 = Strategy.name s1 /\
        Player.name p2 = Strategy.name s2
  | (Raise e, w') => e = EOFError /\ stdin w' = []
  end.
Proof.
  apply simulate_game_reads.
Qed.

(** The menu loop on the lines [lines]: it ends having read at least three
    of them, or with [EOFError] at the end of the input. *)
Lemma menu_loop_outcome lines : forall w,
  match Main.menu_loop Game.new lines w with
  | (Return _, w') =>
      exists used, lines = used ++ stdin w' /\ (3 <= List.length used)%nat
  | (Raise e, w') => e = EOFError /\ stdin w' = []
  end.
Proof.
  induction lines as [|choice rest IH]; intro w.
  - simpl. auto.
  - cbn [Main.menu_loop].
    destruct (String.eqb choice "1").
    + match goal with
      | |- context [Py.bind (Game.play Game.new) ?k ?v] =>
          pose proof (play_reads v) as Hp;
          unfold bind at 1;
          destruct (Game.play Game.new v) as [[g | e] w'];
          [| exact Hp]
      end.
      unfold ret. destruct Hp as (used & Hu & Hlen). simpl in Hu.
      exists (choice :: used). split; [now rewrite Hu | simpl; lia].
    + destruct (String.eqb choice "2").
      * match goal with
        | |- context [Py.bind (Game.simulate_game Game.new) ?k ?v] =>
            pose proof (simulate_game_reads v) as Hp;
            unfold bind at 1;
            destruct (Game.simulate_game Game.new v) as [[[p1 p2] | e] w'];
            [| exact Hp]
        end.
        unfold ret.
        destruct Hp as (pre1 & k1 & pre2 & k2 & s1 & s2 & Hu & _).
        simpl in Hu.
        exists (choice :: pre1 ++ k1 :: pre2 ++ [k2]). split.
        -- rewrite Hu. simpl. rewrite <- app_assoc. simpl.
           rewrite <- app_assoc. reflexivity.
        -- simpl. rewrite length_app. simpl. rewrite length_app. simpl. lia.
      * unfold print; cbv beta iota.
        match goal with
        | |- context [Main.menu_loop Game.new rest ?v] =>
            specialize (IH v);
            destruct (Main.menu_loop Game.new rest v) as [[[] | e] w']
        end.
        -- destruct IH as (used & -> & Hlen).
           exists (choice :: used). split; [reflexivity | simpl; lia].
        -- exact IH.
Qed.

(** X14: the program as a whole.  Whatever is typed and whatever the
    random generator draws, no [ValueError], [IndexError], [KeyError] or
    [AttributeError] leaves the program: it ends normally, having read at
    least three lines (the menu choice and two more), or it ends with
    [EOFError] when the input is exhausted.  So an input of fewer than three
    lines always ends with [EOFError]. *)
Theorem X14_program_raises_only_EOFError w :
  match Main.main w with
  | (Return _, w') => reads_lines 3 w w'
  | (Raise e, w') => e = EOFError /\ stdin w' = []
  end /\
  ((List.length (stdin w) < 3)%nat -> fst (Main.main w) = Raise EOFError).
Proof.
  pose proof (menu_loop_outcome (stdin w) w) as H.
  fold (Main.main w) in H.
  split.
  - destruct (Main.main w) as [[[] | e] w']; exact H.
  - intros Hshort. destruct (Main.main w) as [[[] | e] w'].
    + exfalso. destruct H as (used & Hu & Hlen).
      rewrite Hu, length_app in Hshort. lia.
    + destruct H as [-> _]. reflexivity.
Qed.

Lemma X14_program_raises_only_EOFError_witness :
  fst (Main.main (mkWorld ["3"; "2"] [] (fun n => n) O)) = Raise EOFError.
Proof.
  destruct (X14_program_raises_only_EOFError
              (mkWorld ["3"; "2"] [] (fun n => n) O)) as [_ H].
  apply H. vm_compute. lia.
Defined.

End Program.
